(** * Nearest-neighbour (KSG) estimators of mutual information

    A shallow embedding of [mutual_info.py]: the shape normaliser
    [ensure_2d], the jitter injector [add_noise], the two spatial queries
    [get_radius_kneighbors] and [num_points_within_radius], and the two
    estimators [compute_mi] and [compute_cmi].

    Conventions of the embedding.
    - A float64 sample value is finite and is written as the integer number
      of units [2^-1074] it equals (every finite double is such a multiple),
      so that [==] on doubles is equality of these integers.
    - A non-negative double (a distance, a radius) is written as its
      ordinal: the integer its bit pattern spells.  The order of the
      ordinals is the order of the doubles, [+inf] is [inf_ord], and
      [np.nextafter(d, 0)] is the predecessor, except at [0].
    - numpy arrays are a shape and a row-major buffer.
    - Raised exceptions are values of [error]; the construction of a
      spatial index is an observable event recorded in a trace.
    - The digamma function, the random generator and the float arithmetic
      of the jitter are collaborators, taken as parameters; the final
      reduction (sums, means, [max]) is carried out over the reals. *)

From Stdlib Require Import String Ascii.
From Stdlib Require Import List ZArith NArith Lia Bool Reals Lra.
Import ListNotations.

Set Implicit Arguments.

(** ** Exceptions

    Every failure of the source is a Python [ValueError] or [TypeError];
    the constructors name the place that raises. *)

Inductive error : Type :=
| Unsized              (* len(x) on a 0-d array *)
| InvalidShape         (* ensure_2d: 'x.ndim not equal to 1 or 2' *)
| InvalidNoiseKind     (* add_noise: 'Invalid noise type' *)
| DimensionMismatch    (* np.hstack: the blocks do not have the same rows *)
| EmptyArray           (* KDTree(x): x has no element *)
| InsufficientSamples  (* kd.query: k exceeds the number of points *)
| RadiusShape.         (* kd.query_radius: not one radius per point *)

Inductive result (A : Type) : Type :=
| Ok (a : A)
| Err (e : error).

Arguments Ok {A} a.
Arguments Err {A} e.

Definition rbind {A B} (r : result A) (f : A -> result B) : result B :=
  match r with
  | Ok a => f a
  | Err e => Err e
  end.

(** ** float64 values and distances *)

Abbreviation float64 := Z (only parsing).

(** The double that equals the integer [z] (exact for [|z| <= 2^53]). *)
Definition of_int (z : Z) : float64 := (z * 2 ^ 1074)%Z.

(** Ordinal of [+inf]: exponent field 2047, fraction 0. *)
Definition inf_ord : N := (2047 * 2 ^ 52)%N.

(** [round_ord m] is the ordinal of the double nearest to the magnitude
    [m * 2^-1074], ties to even, overflowing to [+inf]: the rounding that
    an IEEE-754 subtraction applies to the exact difference. *)
Definition round_ord (m : N) : N :=
  if (m <? 2 ^ 53)%N then m
  else
    let e := (N.log2 m - 52)%N in
    let q := N.shiftr m e in
    let r := N.land m (N.ones e) in
    let h := (2 ^ (e - 1))%N in
    let q' := if ((h <? r) || ((r =? h) && N.odd q))%N%bool
              then (q + 1)%N else q in
    N.min inf_ord (e * 2 ^ 52 + q')%N.

(** [fabs(a - b)] in float64. *)
Definition absdiff (a b : float64) : N := round_ord (Z.to_N (Z.abs (a - b))).

(** [np.nextafter(d, 0)] on a non-negative double. *)
Definition nextafter0 (d : N) : N := N.pred d.

(** ** numpy arrays *)

Record ndarray : Type := mk_ndarray { shape : list nat; data : list float64 }.

Abbreviation row := (list float64) (only parsing).

Definition ndim (x : ndarray) : nat := length (shape x).
Definition size (x : ndarray) : nat := length (data x).
Definition nrows (x : ndarray) : nat := nth 0 (shape x) 0.
Definition ncols (x : ndarray) : nat := nth 1 (shape x) 0.

(** The buffer holds as many values as the shape announces. *)
Definition wf (x : ndarray) : Prop :=
  fold_right Nat.mul 1 (shape x) = length (data x).

(** [len(x)]: the leading dimension; a 0-d array has none. *)
Definition len (x : ndarray) : result nat :=
  match shape x with
  | [] => Err Unsized
  | n :: _ => Ok n
  end.

(** [x.reshape(-1, 1)]. *)
Definition reshape_col (x : ndarray) : ndarray :=
  {| shape := [size x; 1]; data := data x |}.

(** [ensure_2d(x)]: the [else] branch takes every rank other than 1. *)
Definition ensure_2d (x : ndarray) : result ndarray :=
  if ndim x =? 1 then Ok (reshape_col x) else Err InvalidShape.

(** ** Rows, columns and [np.hstack] *)

Fixpoint chunks (d n : nat) (l : list float64) : list row :=
  match n with
  | O => []
  | S n' => firstn d l :: chunks d n' (skipn d l)
  end.

(** The rows of a 2-D array. *)
Definition rows (x : ndarray) : list row :=
  match shape x with
  | [n; d] => chunks d n (data x)
  | _ => []
  end.

Fixpoint zip_with {A B C} (f : A -> B -> C) (l : list A) (l' : list B)
  : list C :=
  match l, l' with
  | a :: t, b :: t' => f a b :: zip_with f t t'
  | _, _ => []
  end.

(** Row [i] of the result is the concatenation of the rows [i] of the
    blocks, in the order of the blocks. *)
Definition hstack_rows (n : nat) (blocks : list (list row)) : list row :=
  fold_right (zip_with (@app float64)) (repeat [] n) blocks.

(** [np.hstack(blocks)] on 2-D blocks: concatenation along axis 1, which
    numpy refuses unless the blocks agree on axis 0. *)
Definition hstack (blocks : list ndarray) : result ndarray :=
  match blocks with
  | [] => Err DimensionMismatch
  | x :: _ =>
    if forallb (fun y => (ndim y =? 2) && (nrows y =? nrows x)) blocks
    then Ok {| shape := [nrows x; list_sum (map ncols blocks)];
               data := concat (hstack_rows (nrows x) (map rows blocks)) |}
    else Err DimensionMismatch
  end.

(** ** Python values taken by [noise_type] *)

Inductive pyval : Type :=
| PyNone
| PyBool (b : bool)
| PyInt (z : Z)
| PyStr (s : string).

(** Truth value, as [if noise_type:] tests it. *)
Definition truthy (v : pyval) : bool :=
  match v with
  | PyNone => false
  | PyBool b => b
  | PyInt z => negb (z =? 0)%Z
  | PyStr s => negb (String.eqb s EmptyString)
  end.

(** [noise_type is None]. *)
Definition is_none (v : pyval) : bool :=
  match v with
  | PyNone => true
  | _ => false
  end.

(** [noise_type == s] for a string literal [s]. *)
Definition eq_str (v : pyval) (s : string) : bool :=
  match v with
  | PyStr t => String.eqb t s
  | _ => false
  end.

Inductive noise_kind : Type := Uniform | Normal.

(** ** Index constructions as observable events *)

Inductive event : Type :=
| BuildIndex (n d : nat).   (* KDTree built over n points of dimension d *)

Definition M (A : Type) : Type := (list event * result A)%type.

Definition ret {A} (a : A) : M A := ([], Ok a).

Definition raise {A} (e : error) : M A := ([], Err e).

Definition lift {A} (r : result A) : M A := ([], r).

Definition emit (ev : event) : M unit := ([ev], Ok tt).

Definition bind {A B} (m : M A) (f : A -> M B) : M B :=
  match m with
  | (t, Err e) => (t, Err e)
  | (t, Ok a) => let (t', r) := f a in (t ++ t', r)
  end.

Definition fmap {A B} (f : A -> B) (m : M A) : M B :=
  bind m (fun a => ret (f a)).

Declare Scope ksg_scope.
Delimit Scope ksg_scope with ksg.
Notation "x <- c ;; k" := (bind c (fun x => k))
  (at level 61, c at next level, right associativity) : ksg_scope.
Notation "' p <- c ;; k" := (bind c (fun x => match x with p => k end))
  (at level 61, p pattern, c at next level, right associativity) : ksg_scope.

Definition trace {A} (m : M A) : list event := fst m.
Definition outcome {A} (m : M A) : result A := snd m.

(** ** The spatial index

    scikit-learn's [KDTree] is a collaborator outside the repository.
    With [metric="chebyshev"] its results are exact, so the index is
    taken to be its point set and the queries to be the exhaustive ones.
    Its refusals are those of the library: the constructor refuses an
    array without elements, [query] refuses [k] greater than the number of
    points, [query_radius] refuses radii that are not one per point. *)

Record kdtree : Type := mk_kdtree { kd_points : list row }.

(** Chebyshev distance of two rows: [d = fmax(d, fabs(x1[j] - x2[j]))]. *)
Definition chebyshev (p q : row) : N :=
  fold_right N.max 0%N (zip_with absdiff p q).

(** Distances in increasing order (the order in which the query hands
    the neighbours back). *)
Fixpoint insert_dist (d : N) (l : list N) : list N :=
  match l with
  | [] => [d]
  | h :: t => if (d <=? h)%N then d :: l else h :: insert_dist d t
  end.

Definition sort_dists (l : list N) : list N := fold_right insert_dist [] l.

(** [KDTree(x, metric="chebyshev")]: refuses an array without elements. *)
Definition KDTree (x : ndarray) : M kdtree :=
  (if size x =? 0 then raise EmptyArray
   else _ <- emit (BuildIndex (nrows x) (ncols x)) ;;
        ret (mk_kdtree (rows x)))%ksg.

(** [kd.query(x, k)[0]]: for each row of [x] the [k] smallest distances to
    the points of the index, in increasing order. *)
Definition query (kd : kdtree) (x : ndarray) (k : nat)
  : M (list (list N)) :=
  if length (kd_points kd) <? k then raise InsufficientSamples
  else ret (map (fun p => firstn k
                   (sort_dists (map (chebyshev p) (kd_points kd))))
                (rows x)).

(** [kd.query_radius(x, r, count_only=True)]: for each row of [x] the
    number of points of the index at distance at most its radius. *)
Definition query_radius (kd : kdtree) (x : ndarray) (r : list N)
  : M (list nat) :=
  if length r =? length (rows x)
  then ret (zip_with
              (fun p ri => length (filter (fun q => (chebyshev p q <=? ri)%N)
                                          (kd_points kd)))
              (rows x) r)
  else raise RadiusShape.

(** [get_radius_kneighbors(x, n_neighbors)]. *)
Definition get_radius_kneighbors (x : ndarray) (n_neighbors : nat)
  : M (list N) :=
  (kd <- KDTree x ;;
   neigh_dist <- query kd x (n_neighbors + 1) ;;
   ret (map (fun ds => nextafter0 (last ds 0%N)) neigh_dist))%ksg.

(** [num_points_within_radius(x, radius)]: the count of the query, less
    one. *)
Definition num_points_within_radius (x : ndarray) (radius : list N)
  : M (list Z) :=
  (kd <- KDTree x ;;
   nx <- query_radius kd x radius ;;
   ret (map (fun c => (Z.of_nat c - 1)%Z) nx))%ksg.

(** ** Duplicate rows: [np.unique(a, axis=0, return_inverse, return_counts)] *)

Fixpoint row_compare (p q : row) : comparison :=
  match p, q with
  | [], [] => Eq
  | [], _ :: _ => Lt
  | _ :: _, [] => Gt
  | a :: p', b :: q' =>
    match (a ?= b)%Z with
    | Eq => row_compare p' q'
    | c => c
    end
  end.

Definition row_eqb (p q : row) : bool :=
  match row_compare p q with
  | Eq => true
  | _ => false
  end.

(** The number of rows of [a] equal to [v]. *)
Definition multiplicity (v : row) (a : list row) : nat :=
  length (filter (fun r => row_eqb r v) a).

(** The distinct rows, in increasing order. *)
Fixpoint insert_row (r : row) (vals : list row) : list row :=
  match vals with
  | [] => [r]
  | v :: t =>
    match row_compare r v with
    | Lt => r :: vals
    | Eq => vals
    | Gt => v :: insert_row r t
    end
  end.

Definition unique_rows (a : list row) : list row :=
  fold_right insert_row [] a.

Fixpoint index_of (r : row) (vals : list row) : nat :=
  match vals with
  | [] => O
  | v :: t => if row_eqb r v then O else S (index_of r t)
  end.

(** [(vals, ix, counts)]: the sorted distinct rows, for each row of [a]
    the position of its value in [vals], and for each distinct row the
    number of times it comes up in [a]. *)
Definition np_unique (a : list row) : list row * list nat * list Z :=
  let vals := unique_rows a in
  (vals,
   map (fun r => index_of r vals) a,
   map (fun v => Z.of_nat (multiplicity v a)) vals).

(** [a[mask]]. *)
Fixpoint select {A} (mask : list bool) (a : list A) : list A :=
  match mask, a with
  | true :: m, v :: t => v :: select m t
  | false :: m, _ :: t => select m t
  | _, _ => []
  end.

(** [k[mask] = v]. *)
Fixpoint assign (k : list Z) (mask : list bool) (v : list Z) : list Z :=
  match k, mask with
  | ki :: k', true :: m =>
    match v with
    | v0 :: v' => v0 :: assign k' m v'
    | [] => k
    end
  | ki :: k', false :: m => ki :: assign k' m v
  | _, _ => k
  end.

Definition count_true (mask : list bool) : nat :=
  length (filter (fun b => b) mask).

(** The block guarded by [if noise_type is None:] in both estimators:
    where the radius is 0 the neighbour count becomes the multiplicity of
    the row, less one. *)
Definition tie_break (joint : ndarray) (radius : list N) (k : list Z)
  : list Z :=
  let mask := map (fun r => (r =? 0)%N) radius in
  if 0 <? count_true mask then
    let '(vals, ix, counts) := np_unique (select mask (rows joint)) in
    assign k mask (map (fun i => (nth i counts 0 - 1)%Z) ix)
  else k.

(** ** The final reduction *)

Definition mean (l : list R) : R :=
  (fold_right Rplus 0 l / INR (length l))%R.

(** Python's [max(0, v)]: the first argument stays unless [v] is
    greater. *)
Definition py_max0 (v : R) : R := if Rlt_dec 0 v then v else 0%R.

(** Local variables of [compute_mi] when it reaches its last statement. *)
Record mi_locals : Type := mk_mi_locals {
  mi_n_samples : nat;
  mi_x : ndarray;
  mi_y : ndarray;
  mi_xy : ndarray;
  mi_radius : list N;
  mi_k : list Z;
  mi_nx : list Z;
  mi_ny : list Z
}.

(** Local variables of [compute_cmi] when it reaches its last statement. *)
Record cmi_locals : Type := mk_cmi_locals {
  cmi_n_samples : nat;
  cmi_x : ndarray;
  cmi_y : ndarray;
  cmi_z : ndarray;
  cmi_xyz : ndarray;
  cmi_radius : list N;
  cmi_k : list Z;
  cmi_nxz : list Z;
  cmi_nyz : list Z;
  cmi_nz : list Z
}.

Section Estimators.

(** The collaborators: a generator state with its next variate of each
    kind, the float arithmetic of one jittered entry (from the kind, the
    column of the entry, the entry and the variate), and digamma. *)
Variable rng : Type.
Variable draw : noise_kind -> rng -> float64 * rng.
Variable perturb : noise_kind -> list float64 -> float64 -> float64 -> float64.
Variable digamma : R -> R.

(** [rng.random(x.shape)] or [rng.normal(size=x.shape)], row-major. *)
Fixpoint draws (kind : noise_kind) (n : nat) (g : rng)
  : list float64 * rng :=
  match n with
  | O => ([], g)
  | S n' =>
    let (u, g1) := draw kind g in
    let (us, g2) := draws kind n' g1 in
    (u :: us, g2)
  end.

Definition column (x : ndarray) (c : nat) : list float64 :=
  map (fun r => nth c r 0%Z) (rows x).

(** [x += amplitude * means * noise], entry by entry. *)
Definition jitter (kind : noise_kind) (x : ndarray) (g : rng)
  : ndarray * rng :=
  let (us, g') := draws kind (size x) g in
  ({| shape := shape x;
      data := map (fun tvu : nat * (float64 * float64) =>
                     perturb kind (column x (fst tvu mod ncols x))
                             (fst (snd tvu)) (snd (snd tvu)))
                  (combine (seq 0 (size x)) (combine (data x) us)) |},
   g').

(** [add_noise(x, rng, noise_type)]. *)
Definition add_noise (x : ndarray) (g : rng) (noise_type : pyval)
  : result (ndarray * rng) :=
  if eq_str noise_type "uniform" then Ok (jitter Uniform x g)
  else if eq_str noise_type "normal" then Ok (jitter Normal x g)
  else Err InvalidNoiseKind.

(** [compute_mi] up to its last statement; [g] is the generator that
    [default_rng()] hands out. *)
Definition compute_mi_locals (x y : ndarray) (n_neighbors : nat)
           (noise_type : pyval) (g : rng) : M mi_locals :=
  (n_samples <- lift (len x) ;;
   x <- lift (ensure_2d x) ;;
   y <- lift (ensure_2d y) ;;
   ' (x, y) <- lift
      (if truthy noise_type then
         rbind (add_noise x g noise_type) (fun xg =>
         rbind (add_noise y (snd xg) noise_type) (fun yg =>
         Ok (fst xg, fst yg)))
       else Ok (x, y)) ;;
   xy <- lift (hstack [x; y]) ;;
   let k := repeat (Z.of_nat n_neighbors) n_samples in
   radius <- get_radius_kneighbors xy n_neighbors ;;
   let k := if is_none noise_type then tie_break xy radius k else k in
   nx <- num_points_within_radius x radius ;;
   ny <- num_points_within_radius y radius ;;
   ret (mk_mi_locals n_samples x y xy radius k nx ny))%ksg.

(** The last statement of [compute_mi]: the second argument of [max],
    then the estimate. *)
Definition mi_raw (s : mi_locals) : R :=
  (digamma (INR (mi_n_samples s))
   + mean (map (fun k => digamma (IZR k)) (mi_k s))
   - mean (map (fun c => digamma (IZR (c + 1))) (mi_nx s))
   - mean (map (fun c => digamma (IZR (c + 1))) (mi_ny s)))%R.

Definition mi_estimate (s : mi_locals) : R := py_max0 (mi_raw s).

Definition compute_mi (x y : ndarray) (n_neighbors : nat)
           (noise_type : pyval) (g : rng) : M R :=
  fmap mi_estimate (compute_mi_locals x y n_neighbors noise_type g).

(** [compute_cmi] up to its last statement. *)
Definition compute_cmi_locals (x y z : ndarray) (n_neighbors : nat)
           (noise_type : pyval) (g : rng) : M cmi_locals :=
  (n_samples <- lift (len x) ;;
   x <- lift (ensure_2d x) ;;
   y <- lift (ensure_2d y) ;;
   z <- lift (ensure_2d z) ;;
   ' (x, y, z) <- lift
      (if truthy noise_type then
         rbind (add_noise x g noise_type) (fun xg =>
         rbind (add_noise y (snd xg) noise_type) (fun yg =>
         rbind (add_noise z (snd yg) noise_type) (fun zg =>
         Ok (fst xg, fst yg, fst zg))))
       else Ok (x, y, z)) ;;
   xyz <- lift (hstack [x; y; z]) ;;
   let k := repeat (Z.of_nat n_neighbors) n_samples in
   radius <- get_radius_kneighbors xyz n_neighbors ;;
   let k := if is_none noise_type then tie_break xyz radius k else k in
   xz <- lift (hstack [x; z]) ;;
   nxz <- num_points_within_radius xz radius ;;
   yz <- lift (hstack [y; z]) ;;
   nyz <- num_points_within_radius yz radius ;;
   nz <- num_points_within_radius z radius ;;
   ret (mk_cmi_locals n_samples x y z xyz radius k nxz nyz nz))%ksg.

(** The last statement of [compute_cmi]: the second argument of [max],
    then the estimate. *)
Definition cmi_raw (s : cmi_locals) : R :=
  (mean (map (fun k => digamma (IZR k)) (cmi_k s))
   - mean (map (fun c => digamma (IZR (c + 1))) (cmi_nxz s))
   - mean (map (fun c => digamma (IZR (c + 1))) (cmi_nyz s))
   + mean (map (fun c => digamma (IZR (c + 1))) (cmi_nz s)))%R.

Definition cmi_estimate (s : cmi_locals) : R := py_max0 (cmi_raw s).

Definition compute_cmi (x y z : ndarray) (n_neighbors : nat)
           (noise_type : pyval) (g : rng) : M R :=
  fmap cmi_estimate (compute_cmi_locals x y z n_neighbors noise_type g).

(** *** The steps of the estimators, named for the statements *)

(** The jitter step of [compute_mi]. *)
Definition noise2 (noise_type : pyval) (x y : ndarray) (g : rng)
  : result (ndarray * ndarray) :=
  if truthy noise_type then
    rbind (add_noise x g noise_type) (fun xg =>
    rbind (add_noise y (snd xg) noise_type) (fun yg =>
    Ok (fst xg, fst yg)))
  else Ok (x, y).

(** The jitter step of [compute_cmi]. *)
Definition noise3 (noise_type : pyval) (x y z : ndarray) (g : rng)
  : result (ndarray * ndarray * ndarray) :=
  if truthy noise_type then
    rbind (add_noise x g noise_type) (fun xg =>
    rbind (add_noise y (snd xg) noise_type) (fun yg =>
    rbind (add_noise z (snd yg) noise_type) (fun zg =>
    Ok (fst xg, fst yg, fst zg))))
  else Ok (x, y, z).

(** The neighbour counts that go into the digamma terms. *)
Definition k_of (noise_type : pyval) (joint : ndarray) (radius : list N)
           (n_neighbors n_samples : nat) : list Z :=
  if is_none noise_type
  then tie_break joint radius (repeat (Z.of_nat n_neighbors) n_samples)
  else repeat (Z.of_nat n_neighbors) n_samples.

End Estimators.

(** ** Concrete collaborators and inputs

    A generator that counts, a jitter that adds the variate to the entry,
    and rank-1 arrays of integer-valued doubles, to run the estimators
    on; in these runs the logarithm stands where digamma does, the
    statements holding for every function. *)

Definition counter_draw (kind : noise_kind) (g : nat) : float64 * nat :=
  (Z.of_nat g, S g).

Definition add_variate (kind : noise_kind) (col : list float64)
           (v u : float64) : float64 := (v + u)%Z.

Definition vec (l : list Z) : ndarray :=
  mk_ndarray [length l] (map of_int l).

(** The same values as one column. *)
Definition col (l : list Z) : ndarray :=
  mk_ndarray [length l; 1] (map of_int l).

(** ** Vocabulary of the statements *)

(** A well-formed 2-D array of [n] rows and [d] columns. *)
Definition block (n d : nat) (x : ndarray) : Prop :=
  shape x = [n; d] /\ length (data x) = n * d.

(** [x] is a well-formed array of [n] samples that the shape normaliser
    accepts, as [x2]. *)
Definition sample_block (x : ndarray) (n : nat) (x2 : ndarray) : Prop :=
  wf x /\ len x = Ok n /\ ensure_2d x = Ok x2.

(** The distance from [p] to its [k]-th nearest point of [pts], the
    nearest having number 0. *)
Definition kth_dist (pts : list row) (k : nat) (p : row) : N :=
  nth k (sort_dists (map (chebyshev p) pts)) 0%N.

(** The number of points of [pts] at distance at most [r] from [p]. *)
Definition count_within (pts : list row) (p : row) (r : N) : nat :=
  length (filter (fun q => (chebyshev p q <=? r)%N) pts).

(** The values of [noise_type] with which the jitter step does not fail:
    the falsy ones, which skip it, and the two recognised kinds. *)
Definition noise_ok (noise_type : pyval) : Prop :=
  truthy noise_type = false \/
  eq_str noise_type "uniform" = true \/
  eq_str noise_type "normal" = true.

(** The radius that [get_radius_kneighbors] gives to the point [p] of the
    point set [pts]. *)
Definition radius_of (pts : list row) (k : nat) (p : row) : N :=
  nextafter0 (kth_dist pts k p).

(** What [num_points_within_radius] returns on the point set [pts]. *)
Definition counts_of (pts : list row) (radius : list N) : list Z :=
  zip_with (fun p ri => (Z.of_nat (count_within pts p ri) - 1)%Z) pts radius.

(** The number of points of [pts] other than the point number [i] whose
    distance to it satisfies [P]. *)
Definition count_others (pts : list row) (i : nat) (P : N -> bool) : nat :=
  length (filter (fun j => negb (j =? i)
                           && P (chebyshev (nth i pts []) (nth j pts [])))
                 (seq 0 (length pts))).

(** The other points within distance [r] of the point number [i]. *)
Definition others_within (pts : list row) (i : nat) (r : N) : nat :=
  count_others pts i (fun d => (d <=? r)%N).

(** The other points strictly closer than [d] to the point number [i]. *)
Definition others_closer (pts : list row) (i : nat) (d : N) : nat :=
  count_others pts i (fun d' => (d' <? d)%N).

Definition sorted (l : list N) : Prop :=
  forall i j, i <= j < length l -> (nth i l 0 <= nth j l 0)%N.

(** [d] is the distance from the point number [i] to its [k]-th nearest
    other point: fewer than [k] other points are strictly closer, at least
    [k] are as close. *)
Definition is_kth_neighbor_dist (pts : list row) (i k : nat) (d : N) : Prop :=
  others_closer pts i d < k <= others_within pts i d.


(** C5 as the spec words it: the call fails with the dimension mismatch
    and no index has been built. *)
Definition fails_with_mismatch_before_index (m : M R) : Prop :=
  trace m = [] /\ outcome m = Err DimensionMismatch.

(** C6 as the spec words it: the call fails with the insufficient-samples
    error and no index has been built. *)
Definition fails_as_input_validation (m : M R) : Prop :=
  trace m = [] /\ outcome m = Err InsufficientSamples.

(** C7 as the spec words it: every radius is the nearest double strictly
    below the distance to the k-th nearest other point, and the count at
    that radius on the same point set is [k]. *)
Definition radius_claim_as_stated (x : ndarray) (k : nat) : Prop :=
  exists radius counts,
    outcome (get_radius_kneighbors x k) = Ok radius /\
    outcome (num_points_within_radius x radius) = Ok counts /\
    forall i, i < nrows x ->
      let d := kth_dist (rows x) k (nth i (rows x) []) in
      is_kth_neighbor_dist (rows x) i k d /\
      (nth i radius 0 < d)%N /\
      (forall r, (r < d)%N -> (r <= nth i radius 0)%N) /\
      nth i counts 0%Z = Z.of_nat k.

(** ** Vocabulary of the further properties *)


(** The generator after [n] variates of one kind have been drawn. *)
Fixpoint advance {rng : Type} (draw : noise_kind -> rng -> float64 * rng)
         (kind : noise_kind) (n : nat) (g : rng) : rng :=
  match n with
  | O => g
  | S n' => advance draw kind n' (snd (draw kind g))
  end.

(** * Properties *)

(** ** Arrays *)

Lemma ensure_2d_rank1 (x : ndarray) :
  ndim x = 1 -> ensure_2d x = Ok (mk_ndarray [size x; 1] (data x)).
Proof.
  intros H. unfold ensure_2d. rewrite H. reflexivity.
Qed.

Lemma ensure_2d_other_rank (x : ndarray) :
  ndim x <> 1 -> ensure_2d x = Err InvalidShape.
Proof.
  intros H. unfold ensure_2d.
  destruct (Nat.eqb_spec (ndim x) 1); [contradiction|reflexivity].
Qed.

Lemma ensure_2d_inv (x x2 : ndarray) :
  ensure_2d x = Ok x2 -> ndim x = 1 /\ x2 = reshape_col x.
Proof.
  unfold ensure_2d. destruct (Nat.eqb_spec (ndim x) 1); intros H.
  - injection H as <-. split; [assumption|reflexivity].
  - discriminate.
Qed.

Lemma sample_block_block (x : ndarray) (n : nat) (x2 : ndarray) :
  sample_block x n x2 -> block n 1 x2 /\ data x2 = data x.
Proof.
  intros (Hwf & Hlen & He). apply ensure_2d_inv in He as [Hd ->].
  unfold wf, ndim, len in *. destruct (shape x) as [|m [|? ?]]; try discriminate.
  injection Hlen as ->. simpl in Hwf.
  unfold block, reshape_col, size. simpl. rewrite <- Hwf.
  split; [split|]; [f_equal; lia|lia|reflexivity].
Qed.

Lemma chunks_length (d n : nat) (l : list float64) :
  length (chunks d n l) = n.
Proof.
  revert l. induction n as [|n IH]; intros l; simpl; [reflexivity|].
  now rewrite IH.
Qed.

Lemma chunks_row_length (d n : nat) (l : list float64) :
  length l = n * d -> Forall (fun r => length r = d) (chunks d n l).
Proof.
  revert l. induction n as [|n IH]; intros l Hl; simpl; constructor.
  - rewrite length_firstn. lia.
  - apply IH. rewrite length_skipn. lia.
Qed.

Lemma chunks_concat (d : nat) (rs : list row) :
  Forall (fun r => length r = d) rs ->
  chunks d (length rs) (concat rs) = rs.
Proof.
  induction 1 as [|r rs Hr _ IH]; simpl; [reflexivity|].
  rewrite firstn_app, skipn_app, Hr, Nat.sub_diag. simpl.
  rewrite firstn_all2 by lia. rewrite skipn_all2 by lia.
  rewrite app_nil_r. simpl. now rewrite IH.
Qed.

Lemma block_rows_length (n d : nat) (x : ndarray) :
  block n d x -> length (rows x) = n.
Proof.
  intros [Hs _]. unfold rows. rewrite Hs. apply chunks_length.
Qed.

Lemma block_rows_width (n d : nat) (x : ndarray) :
  block n d x -> Forall (fun r => length r = d) (rows x).
Proof.
  intros [Hs Hl]. unfold rows. rewrite Hs. now apply chunks_row_length.
Qed.

Lemma block_size (n d : nat) (x : ndarray) : block n d x -> size x = n * d.
Proof. intros [_ Hl]. exact Hl. Qed.

Lemma block_nrows (n d : nat) (x : ndarray) : block n d x -> nrows x = n.
Proof. intros [Hs _]. unfold nrows. now rewrite Hs. Qed.

Lemma block_ncols (n d : nat) (x : ndarray) : block n d x -> ncols x = d.
Proof. intros [Hs _]. unfold ncols. now rewrite Hs. Qed.

Lemma block_ndim (n d : nat) (x : ndarray) : block n d x -> ndim x = 2.
Proof. intros [Hs _]. unfold ndim. now rewrite Hs. Qed.

Lemma zip_with_length {A B C} (f : A -> B -> C) (l : list A) (l' : list B) :
  length (zip_with f l l') = Nat.min (length l) (length l').
Proof.
  revert l'. induction l as [|a l IH]; intros [|b l']; simpl; auto.
Qed.

Lemma zip_with_app_nil (n : nat) (rs : list row) :
  length rs = n -> zip_with (@app float64) rs (repeat [] n) = rs.
Proof.
  revert n. induction rs as [|r rs IH]; intros [|n] H; simpl in *;
    try discriminate; [reflexivity|].
  rewrite app_nil_r. f_equal. apply IH. lia.
Qed.

Lemma zip_with_app_width (d d' : nat) (rs rs' : list row) :
  Forall (fun r => length r = d) rs ->
  Forall (fun r => length r = d') rs' ->
  Forall (fun r => length r = d + d') (zip_with (@app float64) rs rs').
Proof.
  intros H. revert rs'. induction H as [|r rs Hr _ IH]; intros rs' H';
    simpl; [constructor|].
  destruct H' as [|r' rs' Hr' H']; constructor.
  - rewrite length_app. lia.
  - now apply IH.
Qed.

Lemma concat_width (d : nat) (rs : list row) :
  Forall (fun r => length r = d) rs ->
  length (concat rs) = length rs * d.
Proof.
  induction 1 as [|r rs Hr _ IH]; simpl; [reflexivity|].
  rewrite length_app, IH, Hr. reflexivity.
Qed.

Lemma hstack_rows_shape (n : nat) (ds : list nat) (bs : list ndarray) :
  Forall2 (block n) ds bs ->
  length (hstack_rows n (map rows bs)) = n /\
  Forall (fun r => length r = list_sum ds) (hstack_rows n (map rows bs)).
Proof.
  induction 1 as [|d b ds bs Hb _ [IHn IHw]]; simpl.
  - split; [apply repeat_length|].
    apply Forall_forall. intros r Hr. now apply repeat_spec in Hr as ->.
  - split.
    + rewrite zip_with_length, IHn, (block_rows_length Hb). lia.
    + apply zip_with_app_width; [eapply block_rows_width; eassumption|].
      exact IHw.
Qed.

(** Blocks of the same number of rows stack, row by row. *)
Lemma hstack_blocks (n : nat) (ds : list nat) (bs : list ndarray) :
  Forall2 (block n) ds bs -> bs <> [] ->
  exists r, hstack bs = Ok r /\ block n (list_sum ds) r /\
            rows r = hstack_rows n (map rows bs).
Proof.
  intros H Hne. destruct (hstack_rows_shape H) as [Hn Hw].
  assert (Hc : forallb (fun y => (ndim y =? 2) && (nrows y =? n)) bs = true).
  { clear -H. induction H as [|d b ds bs Hb _ IH]; simpl; [reflexivity|].
    now rewrite (block_ndim Hb), (block_nrows Hb), !Nat.eqb_refl, IH. }
  assert (Hd : map ncols bs = ds).
  { clear -H. induction H as [|d b ds bs Hb _ IH]; simpl; [reflexivity|].
    now rewrite (block_ncols Hb), IH. }
  destruct bs as [|x bs']; [contradiction|].
  assert (Hx : nrows x = n).
  { inversion H; subst. eapply block_nrows; eassumption. }
  unfold hstack. rewrite Hx, Hc, Hd.
  eexists. split; [reflexivity|]. split.
  - split; [reflexivity|]. cbn [data].
    now rewrite (concat_width Hw), Hn.
  - unfold rows at 1. cbn [shape data].
    rewrite <- Hn at 1. now apply chunks_concat.
Qed.

Lemma hstack_rows2 (n : nat) (rx ry : list row) :
  length ry = n ->
  hstack_rows n [rx; ry] = zip_with (@app float64) rx ry.
Proof.
  intros H. unfold hstack_rows. simpl. now rewrite zip_with_app_nil.
Qed.

Lemma hstack_rows3 (n : nat) (rx ry rz : list row) :
  length rz = n ->
  hstack_rows n [rx; ry; rz]
  = zip_with (@app float64) rx (zip_with (@app float64) ry rz).
Proof.
  intros H. unfold hstack_rows. simpl. now rewrite zip_with_app_nil.
Qed.

(** Blocks whose numbers of rows differ do not stack. *)
Lemma hstack2_mismatch (n m d1 d2 : nat) (x y : ndarray) :
  block n d1 x -> block m d2 y -> n <> m ->
  hstack [x; y] = Err DimensionMismatch.
Proof.
  intros Hx Hy Hnm. unfold hstack. simpl.
  rewrite (block_nrows Hx), (block_nrows Hy).
  destruct (Nat.eqb_spec m n); [congruence|].
  now rewrite !andb_false_r.
Qed.

(** ** The trace monad *)

Lemma bind_lift_ok {A B} (a : A) (f : A -> M B) :
  bind (lift (Ok a)) f = f a.
Proof. unfold bind, lift. now destruct (f a). Qed.

Lemma bind_ok {A B} (t : list event) (a : A) (f : A -> M B) :
  bind (t, Ok a) f = (t ++ trace (f a), outcome (f a)).
Proof. unfold bind, trace, outcome. now destruct (f a). Qed.

Lemma outcome_fmap {A B} (f : A -> B) (m : M A) :
  outcome (fmap f m)
  = match outcome m with Ok a => Ok (f a) | Err e => Err e end.
Proof. destruct m as [t [a|e]]; reflexivity. Qed.

Lemma trace_fmap {A B} (f : A -> B) (m : M A) :
  trace (fmap f m) = trace m.
Proof.
  destruct m as [t [a|e]]; [|reflexivity].
  unfold fmap. rewrite bind_ok. simpl. apply app_nil_r.
Qed.

(** ** Running the two spatial queries *)

Lemma insert_dist_length (d : N) (l : list N) :
  length (insert_dist d l) = S (length l).
Proof.
  induction l as [|h t IH]; simpl; [reflexivity|].
  destruct (d <=? h)%N; simpl; now rewrite ?IH.
Qed.

Lemma sort_dists_length (l : list N) : length (sort_dists l) = length l.
Proof.
  induction l as [|h t IH]; simpl; [reflexivity|].
  now rewrite insert_dist_length, IH.
Qed.

Lemma last_firstn (k : nat) (l : list N) :
  k < length l -> last (firstn (S k) l) 0%N = nth k l 0%N.
Proof.
  revert l. induction k as [|k IH]; intros [|a l] H; simpl in H; try lia.
  - reflexivity.
  - destruct l as [|b l]; [simpl in H; lia|].
    change (nth (S k) (a :: b :: l) 0%N) with (nth k (b :: l) 0%N).
    rewrite <- (IH (b :: l)) by lia. reflexivity.
Qed.

Lemma KDTree_run (n d : nat) (x : ndarray) :
  block n d x -> n * d <> 0 ->
  KDTree x = ([BuildIndex n d], Ok (mk_kdtree (rows x))).
Proof.
  intros Hb Hne. unfold KDTree.
  rewrite (block_size Hb), (block_nrows Hb), (block_ncols Hb).
  destruct (Nat.eqb_spec (n * d) 0); [contradiction|reflexivity].
Qed.

Lemma get_radius_kneighbors_run (n d k : nat) (x : ndarray) :
  block n d x -> n * d <> 0 -> k < n ->
  get_radius_kneighbors x k
  = ([BuildIndex n d],
     Ok (map (fun p => nextafter0 (kth_dist (rows x) k p)) (rows x))).
Proof.
  intros Hb Hne Hk. unfold get_radius_kneighbors.
  rewrite (KDTree_run Hb Hne), bind_ok. unfold query. simpl kd_points.
  rewrite (block_rows_length Hb).
  destruct (Nat.ltb_spec n (k + 1)); [lia|].
  simpl. rewrite map_map. do 2 f_equal.
  apply map_ext. intros p. unfold kth_dist.
  rewrite Nat.add_1_r, last_firstn; [reflexivity|].
  rewrite sort_dists_length, length_map, (block_rows_length Hb). exact Hk.
Qed.

Lemma get_radius_kneighbors_short (n d k : nat) (x : ndarray) :
  block n d x -> n * d <> 0 -> n <= k ->
  get_radius_kneighbors x k = ([BuildIndex n d], Err InsufficientSamples).
Proof.
  intros Hb Hne Hk. unfold get_radius_kneighbors.
  rewrite (KDTree_run Hb Hne), bind_ok. unfold query. simpl kd_points.
  rewrite (block_rows_length Hb).
  destruct (Nat.ltb_spec n (k + 1)); [reflexivity|lia].
Qed.

Lemma map_zip_with {A B C D} (g : C -> D) (f : A -> B -> C)
      (l : list A) (l' : list B) :
  map g (zip_with f l l') = zip_with (fun a b => g (f a b)) l l'.
Proof.
  revert l'. induction l as [|a l IH]; intros [|b l']; simpl;
    try reflexivity.
  now rewrite IH.
Qed.

Lemma num_points_within_radius_run (n d : nat) (x : ndarray) (r : list N) :
  block n d x -> n * d <> 0 -> length r = n ->
  num_points_within_radius x r
  = ([BuildIndex n d],
     Ok (zip_with (fun p ri => Z.of_nat (count_within (rows x) p ri) - 1)%Z
                  (rows x) r)).
Proof.
  intros Hb Hne Hr. unfold num_points_within_radius.
  rewrite (KDTree_run Hb Hne), bind_ok. unfold query_radius.
  simpl kd_points. rewrite Hr, (block_rows_length Hb), Nat.eqb_refl.
  simpl. do 2 f_equal. unfold count_within. apply map_zip_with.
Qed.

(** ** The estimators, step by step *)

Section EstimatorSteps.

Variable rng : Type.
Variable draw : noise_kind -> rng -> float64 * rng.
Variable perturb : noise_kind -> list float64 -> float64 -> float64 -> float64.
Variable digamma : R -> R.

Lemma draws_length (kind : noise_kind) (n : nat) (g : rng) :
  length (fst (draws draw kind n g)) = n.
Proof.
  revert g. induction n as [|n IH]; intros g; simpl; [reflexivity|].
  destruct (draw kind g) as [u g1]. specialize (IH g1).
  destruct (draws draw kind n g1) as [us g2]. simpl in *. now rewrite IH.
Qed.

Lemma jitter_block (kind : noise_kind) (n d : nat) (x : ndarray) (g : rng) :
  block n d x -> block n d (fst (jitter draw perturb kind x g)).
Proof.
  intros [Hs Hl]. unfold jitter.
  pose proof (draws_length kind (size x) g) as Hu.
  destruct (draws draw kind (size x) g) as [us g']. simpl in Hu.
  split; simpl; [exact Hs|].
  rewrite length_map, !length_combine, length_seq, Hu.
  unfold size. lia.
Qed.

Lemma add_noise_ok (noise_type : pyval) (n d : nat) (x : ndarray) (g : rng) :
  truthy noise_type = true -> noise_ok noise_type -> block n d x ->
  exists x' g', add_noise draw perturb x g noise_type = Ok (x', g') /\
                block n d x'.
Proof.
  intros Ht [Hf|[Hu|Hn]] Hb; [congruence| |]; unfold add_noise.
  - rewrite Hu. eexists _, _.
    split; [f_equal; apply surjective_pairing|].
    now apply jitter_block.
  - rewrite Hn. destruct (eq_str noise_type "uniform");
      (eexists _, _; split; [f_equal; apply surjective_pairing|]);
      now apply jitter_block.
Qed.

Lemma add_noise_bad (noise_type : pyval) (x : ndarray) (g : rng) :
  ~ noise_ok noise_type ->
  add_noise draw perturb x g noise_type = Err InvalidNoiseKind.
Proof.
  intros H. unfold add_noise, noise_ok in *.
  destruct (eq_str noise_type "uniform"); [tauto|].
  destruct (eq_str noise_type "normal"); [tauto|reflexivity].
Qed.

Lemma noise2_ok (noise_type : pyval) (n m : nat) (x y : ndarray) (g : rng) :
  noise_ok noise_type -> block n 1 x -> block m 1 y ->
  exists x' y', noise2 draw perturb noise_type x y g = Ok (x', y') /\
                block n 1 x' /\ block m 1 y' /\
                (truthy noise_type = false -> x' = x /\ y' = y).
Proof.
  intros Hok Hx Hy. unfold noise2.
  destruct (truthy noise_type) eqn:Ht.
  - destruct (add_noise_ok g Ht Hok Hx) as (x' & g1 & -> & Hx').
    destruct (add_noise_ok g1 Ht Hok Hy) as (y' & g2 & Ey & Hy').
    simpl. rewrite Ey. simpl. exists x', y'. repeat (split; [solve [auto]|]). congruence.
  - exists x, y. repeat (split; [solve [auto]|]). auto.
Qed.

Lemma noise2_bad (noise_type : pyval) (x y : ndarray) (g : rng) :
  ~ noise_ok noise_type ->
  noise2 draw perturb noise_type x y g = Err InvalidNoiseKind.
Proof.
  intros H. unfold noise2.
  destruct (truthy noise_type) eqn:Ht; [|exfalso; apply H; now left].
  now rewrite add_noise_bad.
Qed.

Lemma noise3_ok (noise_type : pyval) (n m l : nat) (x y z : ndarray)
      (g : rng) :
  noise_ok noise_type -> block n 1 x -> block m 1 y -> block l 1 z ->
  exists x' y' z', noise3 draw perturb noise_type x y z g = Ok (x', y', z') /\
                   block n 1 x' /\ block m 1 y' /\ block l 1 z' /\
                   (truthy noise_type = false -> x' = x /\ y' = y /\ z' = z).
Proof.
  intros Hok Hx Hy Hz. unfold noise3.
  destruct (truthy noise_type) eqn:Ht.
  - destruct (add_noise_ok g Ht Hok Hx) as (x' & g1 & -> & Hx').
    destruct (add_noise_ok g1 Ht Hok Hy) as (y' & g2 & Ey & Hy').
    destruct (add_noise_ok g2 Ht Hok Hz) as (z' & g3 & Ez & Hz').
    simpl. rewrite Ey. simpl. rewrite Ez. simpl.
    exists x', y', z'. repeat (split; [solve [auto]|]). congruence.
  - exists x, y, z. repeat (split; [solve [auto]|]). auto.
Qed.

Lemma noise3_bad (noise_type : pyval) (x y z : ndarray) (g : rng) :
  ~ noise_ok noise_type ->
  noise3 draw perturb noise_type x y z g = Err InvalidNoiseKind.
Proof.
  intros H. unfold noise3.
  destruct (truthy noise_type) eqn:Ht; [|exfalso; apply H; now left].
  now rewrite add_noise_bad.
Qed.

(** On valid input [compute_mi] builds three indices and reaches its
    last statement. *)
Lemma compute_mi_locals_run (x y x2 y2 : ndarray) (n k : nat)
      (noise_type : pyval) (g : rng) :
  sample_block x n x2 -> sample_block y n y2 -> k < n ->
  noise_ok noise_type ->
  exists x' y' xy,
    noise2 draw perturb noise_type x2 y2 g = Ok (x', y') /\
    block n 1 x' /\ block n 1 y' /\
    hstack [x'; y'] = Ok xy /\ block n 2 xy /\
    rows xy = zip_with (@app float64) (rows x') (rows y') /\
    let radius := map (radius_of (rows xy) k) (rows xy) in
    compute_mi_locals draw perturb x y k noise_type g
    = ([BuildIndex n 2; BuildIndex n 1; BuildIndex n 1],
       Ok (mk_mi_locals n x' y' xy radius
             (k_of noise_type xy radius k n)
             (counts_of (rows x') radius)
             (counts_of (rows y') radius))).
Proof.
  intros Sx Sy Hk Hok.
  destruct (sample_block_block Sx) as [Bx _].
  destruct (sample_block_block Sy) as [By _].
  destruct (noise2_ok g Hok Bx By) as (x' & y' & En & Bx' & By' & _).
  destruct (@hstack_blocks n [1; 1] [x'; y']) as (xy & Eh & Bxy & Rxy);
    [auto using Forall2_cons, Forall2_nil|discriminate|].
  cbn [map] in Rxy.
  rewrite hstack_rows2 in Rxy by (eapply block_rows_length; eassumption).
  simpl in Bxy.
  exists x', y', xy. repeat (split; [assumption|]).
  intros radius.
  assert (Lr : length radius = n).
  { unfold radius. now rewrite length_map, (block_rows_length Bxy). }
  destruct Sx as (_ & Lx & Ex). destruct Sy as (_ & _ & Ey).
  unfold compute_mi_locals. rewrite Lx, Ex, Ey.
  rewrite !bind_lift_ok. fold (noise2 draw perturb noise_type x2 y2 g).
  rewrite En, bind_lift_ok, Eh, bind_lift_ok.
  rewrite (get_radius_kneighbors_run Bxy) by lia.
  rewrite bind_ok. fold (radius_of (rows xy) k). fold radius.
  rewrite (@num_points_within_radius_run n 1 x' radius Bx') by lia.
  rewrite bind_ok.
  rewrite (@num_points_within_radius_run n 1 y' radius By') by lia.
  rewrite bind_ok. reflexivity.
Qed.

(** On valid input [compute_cmi] builds four indices and reaches its
    last statement. *)
Lemma compute_cmi_locals_run (x y z x2 y2 z2 : ndarray) (n k : nat)
      (noise_type : pyval) (g : rng) :
  sample_block x n x2 -> sample_block y n y2 -> sample_block z n z2 ->
  k < n -> noise_ok noise_type ->
  exists x' y' z' xyz xz yz,
    noise3 draw perturb noise_type x2 y2 z2 g = Ok (x', y', z') /\
    block n 1 x' /\ block n 1 y' /\ block n 1 z' /\
    hstack [x'; y'; z'] = Ok xyz /\ block n 3 xyz /\
    rows xyz = zip_with (@app float64) (rows x')
                 (zip_with (@app float64) (rows y') (rows z')) /\
    hstack [x'; z'] = Ok xz /\ block n 2 xz /\
    rows xz = zip_with (@app float64) (rows x') (rows z') /\
    hstack [y'; z'] = Ok yz /\ block n 2 yz /\
    rows yz = zip_with (@app float64) (rows y') (rows z') /\
    let radius := map (radius_of (rows xyz) k) (rows xyz) in
    compute_cmi_locals draw perturb x y z k noise_type g
    = ([BuildIndex n 3; BuildIndex n 2; BuildIndex n 2; BuildIndex n 1],
       Ok (mk_cmi_locals n x' y' z' xyz radius
             (k_of noise_type xyz radius k n)
             (counts_of (rows xz) radius)
             (counts_of (rows yz) radius)
             (counts_of (rows z') radius))).
Proof.
  intros Sx Sy Sz Hk Hok.
  destruct (sample_block_block Sx) as [Bx _].
  destruct (sample_block_block Sy) as [By _].
  destruct (sample_block_block Sz) as [Bz _].
  destruct (noise3_ok g Hok Bx By Bz)
    as (x' & y' & z' & En & Bx' & By' & Bz' & _).
  pose proof (block_rows_length Bz') as Lz.
  destruct (@hstack_blocks n [1; 1; 1] [x'; y'; z'])
    as (xyz & Eh & Bxyz & Rxyz);
    [auto using Forall2_cons, Forall2_nil|discriminate|].
  destruct (@hstack_blocks n [1; 1] [x'; z']) as (xz & Exz & Bxz & Rxz);
    [auto using Forall2_cons, Forall2_nil|discriminate|].
  destruct (@hstack_blocks n [1; 1] [y'; z']) as (yz & Eyz & Byz & Ryz);
    [auto using Forall2_cons, Forall2_nil|discriminate|].
  cbn [map] in Rxyz, Rxz, Ryz.
  rewrite hstack_rows3 in Rxyz by exact Lz.
  rewrite hstack_rows2 in Rxz, Ryz by exact Lz.
  simpl in Bxyz, Bxz, Byz.
  exists x', y', z', xyz, xz, yz. repeat (split; [assumption|]).
  intros radius.
  assert (Lr : length radius = n).
  { unfold radius. now rewrite length_map, (block_rows_length Bxyz). }
  destruct Sx as (_ & Lx & Ex). destruct Sy as (_ & _ & Ey).
  destruct Sz as (_ & _ & Ez).
  unfold compute_cmi_locals. rewrite Lx, Ex, Ey, Ez.
  rewrite !bind_lift_ok. fold (noise3 draw perturb noise_type x2 y2 z2 g).
  rewrite En, bind_lift_ok, Eh, bind_lift_ok.
  rewrite (get_radius_kneighbors_run Bxyz) by lia.
  fold (radius_of (rows xyz) k). fold radius.
  unfold bind at 1. rewrite Exz, bind_lift_ok.
  rewrite (@num_points_within_radius_run n 2 xz radius Bxz) by lia.
  unfold bind at 1. rewrite Eyz, bind_lift_ok.
  rewrite (@num_points_within_radius_run n 2 yz radius Byz) by lia.
  unfold bind at 1.
  rewrite (@num_points_within_radius_run n 1 z' radius Bz') by lia.
  reflexivity.
Qed.

(** Blocks of different sample counts: the call stops at the jitter step
    or at [np.hstack], before any index exists. *)
Lemma compute_mi_locals_mismatch (x y x2 y2 : ndarray) (n m k : nat)
      (noise_type : pyval) (g : rng) :
  sample_block x n x2 -> sample_block y m y2 -> n <> m ->
  (noise_ok noise_type ->
   compute_mi_locals draw perturb x y k noise_type g
   = ([], Err DimensionMismatch)) /\
  (~ noise_ok noise_type ->
   compute_mi_locals draw perturb x y k noise_type g
   = ([], Err InvalidNoiseKind)).
Proof.
  intros Sx Sy Hnm.
  destruct (sample_block_block Sx) as [Bx _].
  destruct (sample_block_block Sy) as [By _].
  destruct Sx as (_ & Lx & Ex). destruct Sy as (_ & _ & Ey).
  split; intros Hok; unfold compute_mi_locals; rewrite Lx, Ex, Ey;
    rewrite !bind_lift_ok; fold (noise2 draw perturb noise_type x2 y2 g).
  - destruct (noise2_ok g Hok Bx By) as (x' & y' & En & Bx' & By' & _).
    rewrite En, bind_lift_ok.
    now rewrite (hstack2_mismatch Bx' By' Hnm).
  - now rewrite (noise2_bad _ _ g Hok).
Qed.

(** Too few samples: the joint index is built, then its query fails. *)
Lemma compute_mi_locals_short (x y x2 y2 : ndarray) (n k : nat)
      (noise_type : pyval) (g : rng) :
  sample_block x n x2 -> sample_block y n y2 -> 1 <= n <= k ->
  noise_ok noise_type ->
  compute_mi_locals draw perturb x y k noise_type g
  = ([BuildIndex n 2], Err InsufficientSamples).
Proof.
  intros Sx Sy Hk Hok.
  destruct (sample_block_block Sx) as [Bx _].
  destruct (sample_block_block Sy) as [By _].
  destruct (noise2_ok g Hok Bx By) as (x' & y' & En & Bx' & By' & _).
  destruct (@hstack_blocks n [1; 1] [x'; y']) as (xy & Eh & Bxy & Rxy);
    [auto using Forall2_cons, Forall2_nil|discriminate|].
  simpl in Bxy.
  destruct Sx as (_ & Lx & Ex). destruct Sy as (_ & _ & Ey).
  unfold compute_mi_locals. rewrite Lx, Ex, Ey.
  rewrite !bind_lift_ok. fold (noise2 draw perturb noise_type x2 y2 g).
  rewrite En, bind_lift_ok, Eh, bind_lift_ok.
  rewrite (get_radius_kneighbors_short Bxy) by lia.
  reflexivity.
Qed.

Lemma compute_cmi_locals_short (x y z x2 y2 z2 : ndarray) (n k : nat)
      (noise_type : pyval) (g : rng) :
  sample_block x n x2 -> sample_block y n y2 -> sample_block z n z2 ->
  1 <= n <= k -> noise_ok noise_type ->
  compute_cmi_locals draw perturb x y z k noise_type g
  = ([BuildIndex n 3], Err InsufficientSamples).
Proof.
  intros Sx Sy Sz Hk Hok.
  destruct (sample_block_block Sx) as [Bx _].
  destruct (sample_block_block Sy) as [By _].
  destruct (sample_block_block Sz) as [Bz _].
  destruct (noise3_ok g Hok Bx By Bz)
    as (x' & y' & z' & En & Bx' & By' & Bz' & _).
  destruct (@hstack_blocks n [1; 1; 1] [x'; y'; z'])
    as (xyz & Eh & Bxyz & Rxyz);
    [auto using Forall2_cons, Forall2_nil|discriminate|].
  simpl in Bxyz.
  destruct Sx as (_ & Lx & Ex). destruct Sy as (_ & _ & Ey).
  destruct Sz as (_ & _ & Ez).
  unfold compute_cmi_locals. rewrite Lx, Ex, Ey, Ez.
  rewrite !bind_lift_ok. fold (noise3 draw perturb noise_type x2 y2 z2 g).
  rewrite En, bind_lift_ok, Eh, bind_lift_ok.
  rewrite (get_radius_kneighbors_short Bxyz) by lia.
  reflexivity.
Qed.

(** No sample at all: the joint index refuses the empty array. *)
Lemma compute_mi_locals_empty (x y x2 y2 : ndarray) (k : nat)
      (noise_type : pyval) (g : rng) :
  sample_block x 0 x2 -> sample_block y 0 y2 -> noise_ok noise_type ->
  compute_mi_locals draw perturb x y k noise_type g = ([], Err EmptyArray).
Proof.
  intros Sx Sy Hok.
  destruct (sample_block_block Sx) as [Bx _].
  destruct (sample_block_block Sy) as [By _].
  destruct (noise2_ok g Hok Bx By) as (x' & y' & En & Bx' & By' & _).
  destruct (@hstack_blocks 0 [1; 1] [x'; y']) as (xy & Eh & Bxy & Rxy);
    [auto using Forall2_cons, Forall2_nil|discriminate|].
  destruct Sx as (_ & Lx & Ex). destruct Sy as (_ & _ & Ey).
  unfold compute_mi_locals. rewrite Lx, Ex, Ey.
  rewrite !bind_lift_ok. fold (noise2 draw perturb noise_type x2 y2 g).
  rewrite En, bind_lift_ok, Eh, bind_lift_ok.
  unfold get_radius_kneighbors, KDTree. rewrite (block_size Bxy).
  reflexivity.
Qed.

Lemma compute_cmi_locals_empty (x y z x2 y2 z2 : ndarray) (k : nat)
      (noise_type : pyval) (g : rng) :
  sample_block x 0 x2 -> sample_block y 0 y2 -> sample_block z 0 z2 ->
  noise_ok noise_type ->
  compute_cmi_locals draw perturb x y z k noise_type g
  = ([], Err EmptyArray).
Proof.
  intros Sx Sy Sz Hok.
  destruct (sample_block_block Sx) as [Bx _].
  destruct (sample_block_block Sy) as [By _].
  destruct (sample_block_block Sz) as [Bz _].
  destruct (noise3_ok g Hok Bx By Bz)
    as (x' & y' & z' & En & Bx' & By' & Bz' & _).
  destruct (@hstack_blocks 0 [1; 1; 1] [x'; y'; z'])
    as (xyz & Eh & Bxyz & Rxyz);
    [auto using Forall2_cons, Forall2_nil|discriminate|].
  destruct Sx as (_ & Lx & Ex). destruct Sy as (_ & _ & Ey).
  destruct Sz as (_ & _ & Ez).
  unfold compute_cmi_locals. rewrite Lx, Ex, Ey, Ez.
  rewrite !bind_lift_ok. fold (noise3 draw perturb noise_type x2 y2 z2 g).
  rewrite En, bind_lift_ok, Eh, bind_lift_ok.
  unfold get_radius_kneighbors, KDTree. rewrite (block_size Bxyz).
  reflexivity.
Qed.

End EstimatorSteps.

(** ** Distances and counting *)

Lemma absdiff_refl (a : float64) : absdiff a a = 0%N.
Proof. unfold absdiff. now rewrite Z.sub_diag. Qed.

Lemma chebyshev_refl (p : row) : chebyshev p p = 0%N.
Proof.
  unfold chebyshev. induction p as [|a p IH]; simpl; [reflexivity|].
  now rewrite IH, absdiff_refl.
Qed.

Lemma filter_length_map {A B} (f : B -> bool) (g : A -> B) (l : list A) :
  length (filter f (map g l)) = length (filter (fun a => f (g a)) l).
Proof.
  induction l as [|a l IH]; simpl; [reflexivity|].
  destruct (f (g a)); simpl; now rewrite IH.
Qed.

Lemma filter_length_ext {A} (f g : A -> bool) (l : list A) :
  (forall a, In a l -> f a = g a) ->
  length (filter f l) = length (filter g l).
Proof.
  induction l as [|a l IH]; intros H; simpl; [reflexivity|].
  rewrite (H a) by now left.
  destruct (g a); simpl; rewrite IH; auto; intros; apply H; now right.
Qed.

(** Counting over the points is counting over their numbers. *)
Lemma filter_length_index {A} (f : A -> bool) (d : A) (l : list A) :
  length (filter f l)
  = length (filter (fun j => f (nth j l d)) (seq 0 (length l))).
Proof.
  induction l as [|a l IH]; simpl; [reflexivity|].
  rewrite <- seq_shift.
  destruct (f a); simpl; rewrite filter_length_map; simpl; now rewrite IH.
Qed.

(** Setting one number apart in a count over [0 .. n-1]. *)
Lemma filter_length_split (P : nat -> bool) (i s n : nat) :
  s <= i < s + n ->
  length (filter P (seq s n))
  = length (filter (fun j => negb (j =? i) && P j) (seq s n))
    + (if P i then 1 else 0).
Proof.
  revert s. induction n as [|n IH]; intros s H; [lia|]. simpl.
  destruct (Nat.eqb_spec s i) as [->|Hne]; simpl.
  - assert (E : length (filter (fun j => negb (j =? i) && P j) (seq (S i) n))
                = length (filter P (seq (S i) n))).
    { apply filter_length_ext. intros j Hj. apply in_seq in Hj.
      destruct (Nat.eqb_spec j i); [lia|reflexivity]. }
    rewrite E. destruct (P i); simpl; lia.
  - specialize (IH (S s)). destruct (P s); simpl; rewrite IH; lia.
Qed.

Lemma count_within_others (pts : list row) (i : nat) (P : N -> bool) :
  i < length pts ->
  length (filter (fun q => P (chebyshev (nth i pts []) q)) pts)
  = count_others pts i P + (if P 0%N then 1 else 0).
Proof.
  intros Hi. unfold count_others.
  rewrite (filter_length_index _ [] pts).
  rewrite (@filter_length_split _ i 0) by lia.
  now rewrite chebyshev_refl.
Qed.

Lemma zip_with_nth {A B C} (f : A -> B -> C) (l : list A) (l' : list B)
      (da : A) (db : B) (dc : C) (j : nat) :
  j < length l -> j < length l' ->
  nth j (zip_with f l l') dc = f (nth j l da) (nth j l' db).
Proof.
  revert l' j. induction l as [|a l IH]; intros [|b l'] j Hl Hl';
    simpl in *; try lia.
  destruct j as [|j]; [reflexivity|]. apply IH; lia.
Qed.

Lemma nth_map_seq {A} (f : nat -> A) (n i : nat) (d : A) :
  i < n -> nth i (map f (seq 0 n)) d = f i.
Proof.
  intros Hi. rewrite (nth_indep _ d (f 0)).
  - now rewrite map_nth, seq_nth.
  - now rewrite length_map, length_seq.
Qed.

(** [num_points_within_radius] counts the other points: the point itself
    is always within its radius. *)
Lemma counts_of_others (pts : list row) (radius : list N) :
  length radius = length pts ->
  counts_of pts radius
  = map (fun i => Z.of_nat (others_within pts i (nth i radius 0%N)))
        (seq 0 (length pts)).
Proof.
  intros Hl. apply nth_ext with (d := 0%Z) (d' := 0%Z).
  - unfold counts_of. rewrite zip_with_length, length_map, length_seq. lia.
  - unfold counts_of. rewrite zip_with_length. intros i Hi.
    assert (Hi' : i < length pts) by lia.
    rewrite nth_map_seq by exact Hi'.
    rewrite (zip_with_nth _ _ _ [] 0%N) by lia.
    unfold count_within, others_within.
    rewrite (@count_within_others pts i (fun d => (d <=? nth i radius 0)%N))
      by exact Hi'.
    destruct (N.leb_spec 0%N (nth i radius 0%N)); lia.
Qed.

(** ** The sorted distances *)

Lemma insert_dist_filter (f : N -> bool) (d : N) (l : list N) :
  length (filter f (insert_dist d l)) = length (filter f (d :: l)).
Proof.
  induction l as [|h t IH]; simpl; [reflexivity|].
  destruct (d <=? h)%N; simpl; [reflexivity|].
  simpl in IH. destruct (f h), (f d); simpl in *; lia.
Qed.

Lemma sort_dists_filter (f : N -> bool) (l : list N) :
  length (filter f (sort_dists l)) = length (filter f l).
Proof.
  induction l as [|h t IH]; simpl; [reflexivity|].
  rewrite insert_dist_filter. simpl. destruct (f h); simpl; now rewrite IH.
Qed.

Lemma insert_dist_in (d x : N) (l : list N) :
  In x (insert_dist d l) <-> x = d \/ In x l.
Proof.
  induction l as [|h t IH]; simpl; [intuition|].
  destruct (d <=? h)%N; simpl; [intuition|]. rewrite IH. intuition.
Qed.

Lemma sort_dists_in (x : N) (l : list N) : In x (sort_dists l) <-> In x l.
Proof.
  induction l as [|h t IH]; simpl; [reflexivity|].
  rewrite insert_dist_in, IH. intuition.
Qed.

Lemma sorted_cons (a : N) (l : list N) :
  sorted (a :: l) <-> (forall x, In x l -> (a <= x)%N) /\ sorted l.
Proof.
  unfold sorted. split.
  - intros H. split.
    + intros x Hx. apply (In_nth _ _ 0%N) in Hx as (j & Hj & <-).
      apply (H 0 (S j)). simpl. lia.
    + intros i j Hij. apply (H (S i) (S j)). simpl. lia.
  - intros [Ha Hs] [|i] [|j] Hij; simpl in *; try lia.
    + apply Ha, nth_In. lia.
    + apply Hs. lia.
Qed.

Lemma insert_dist_sorted (d : N) (l : list N) :
  sorted l -> sorted (insert_dist d l).
Proof.
  induction l as [|h t IH]; intros Hs; simpl.
  - apply sorted_cons. split; [intros x []|]. intros i j Hij. simpl in Hij. lia.
  - apply sorted_cons in Hs as [Hh Ht].
    destruct (N.leb_spec d h).
    + apply sorted_cons. split.
      * intros x [<-|Hx]; [assumption|]. specialize (Hh x Hx). lia.
      * apply sorted_cons. now split.
    + apply sorted_cons. split; [|now apply IH].
      intros x Hx. apply insert_dist_in in Hx as [->|Hx]; [lia|now apply Hh].
Qed.

Lemma sort_dists_sorted (l : list N) : sorted (sort_dists l).
Proof.
  induction l as [|h t IH]; simpl.
  - intros i j Hij. simpl in Hij. lia.
  - now apply insert_dist_sorted.
Qed.

(** In a sorted list, fewer than [k+1] elements lie below the element
    number [k], and at least [k+1] do not exceed it. *)
Lemma sorted_rank (l : list N) (k : nat) :
  sorted l -> k < length l ->
  length (filter (fun x => (x <? nth k l 0)%N) l) <= k /\
  k + 1 <= length (filter (fun x => (x <=? nth k l 0)%N) l).
Proof.
  revert k. induction l as [|a l IH]; intros k Hs Hk; simpl in Hk; [lia|].
  apply sorted_cons in Hs as [Ha Hs]. destruct k as [|k]; simpl.
  - rewrite N.ltb_irrefl, N.leb_refl. simpl. split; [|lia].
    rewrite (@filter_length_ext _ _ (fun _ => false) l).
    + clear. induction l; simpl; auto.
    + intros x Hx. apply N.ltb_ge. now apply Ha.
  - destruct (IH k Hs) as [H1 H2]; [lia|].
    assert (Hak : (a <= nth k l 0)%N) by (apply Ha, nth_In; lia).
    destruct (N.ltb_spec a (nth k l 0%N)), (N.leb_spec a (nth k l 0%N));
      simpl; lia.
Qed.

(** When the element before it is smaller, exactly [k] elements lie below
    the element number [k]. *)
Lemma sorted_rank_strict (l : list N) (k : nat) :
  sorted l -> S k < length l -> (nth k l 0 < nth (S k) l 0)%N ->
  length (filter (fun x => (x <? nth (S k) l 0)%N) l) = S k.
Proof.
  revert k. induction l as [|a l IH]; intros k Hs Hk Hlt; simpl in Hk; [lia|].
  pose proof Hs as Hs0. apply sorted_cons in Hs as [Ha Hs].
  destruct k as [|k].
  - simpl in *. destruct (N.ltb_spec a (nth 0 l 0%N)); [|lia]. simpl.
    f_equal. destruct (@sorted_rank l 0 Hs) as [H1 _]; lia.
  - change (nth (S (S k)) (a :: l) 0%N) with (nth (S k) l 0%N) in *.
    change (nth (S k) (a :: l) 0%N) with (nth k l 0%N) in Hlt.
    assert (Hak : (a <= nth k l 0)%N) by (apply Ha, nth_In; lia).
    specialize (IH k Hs ltac:(lia) Hlt).
    simpl. destruct (N.ltb_spec a (nth (S k) l 0%N)); simpl; lia.
Qed.

(** ** Duplicate rows *)

Lemma row_compare_eq (p q : row) : row_compare p q = Eq <-> p = q.
Proof.
  revert q. induction p as [|a p IH]; intros [|b q]; simpl;
    try (split; [discriminate|discriminate]); [tauto|].
  destruct (Z.compare_spec a b) as [->|H|H].
  - rewrite IH. split; [now intros ->|now intros [= ->]].
  - split; [discriminate|]. intros [= -> _]. lia.
  - split; [discriminate|]. intros [= -> _]. lia.
Qed.

Lemma row_eqb_eq (p q : row) : row_eqb p q = true <-> p = q.
Proof.
  unfold row_eqb. rewrite <- row_compare_eq.
  destruct (row_compare p q); split; congruence.
Qed.

Lemma row_eqb_refl (p : row) : row_eqb p p = true.
Proof. now apply row_eqb_eq. Qed.

Lemma insert_row_in (x r : row) (vals : list row) :
  In x (insert_row r vals) <-> x = r \/ In x vals.
Proof.
  induction vals as [|v t IH]; simpl; [intuition|].
  destruct (row_compare r v) eqn:E; simpl.
  - apply row_compare_eq in E as ->. intuition.
  - intuition.
  - rewrite IH. intuition.
Qed.

Lemma unique_rows_in (x : row) (a : list row) :
  In x (unique_rows a) <-> In x a.
Proof.
  induction a as [|r a IH]; simpl; [reflexivity|].
  rewrite insert_row_in, IH. intuition.
Qed.

Lemma index_of_nth (r : row) (vals : list row) :
  In r vals ->
  index_of r vals < length vals /\ nth (index_of r vals) vals [] = r.
Proof.
  induction vals as [|v t IH]; intros H; [contradiction|]. simpl.
  destruct (row_eqb r v) eqn:E.
  - apply row_eqb_eq in E as ->. split; [lia|reflexivity].
  - destruct H as [->|H]; [now rewrite row_eqb_refl in E|].
    destruct (IH H). split; [lia|assumption].
Qed.

Lemma nth_map_lt {A B} (f : A -> B) (l : list A) (d : A) (d' : B) (i : nat) :
  i < length l -> nth i (map f l) d' = f (nth i l d).
Proof.
  revert i. induction l as [|a l IH]; intros [|i] H; simpl in *; try lia.
  - reflexivity.
  - apply IH. lia.
Qed.

(** [counts[ix]]: each row of [a] gets the number of its occurrences. *)
Lemma np_unique_counts (a : list row) :
  let '(vals, ix, counts) := np_unique a in
  map (fun i => nth i counts 0%Z) ix
  = map (fun r => Z.of_nat (multiplicity r a)) a.
Proof.
  unfold np_unique. rewrite map_map. apply map_ext_in. intros r Hr.
  apply unique_rows_in in Hr. destruct (index_of_nth _ _ Hr) as [Hi Hn].
  now rewrite (nth_map_lt _ _ [] 0%Z Hi), Hn.
Qed.

Lemma select_map_filter {A} (f : A -> bool) (l : list A) :
  select (map f l) l = filter f l.
Proof.
  induction l as [|a l IH]; simpl; [reflexivity|].
  destruct (f a); now rewrite IH.
Qed.

Lemma assign_nth (f : row -> Z) (k : list Z) (mask : list bool)
      (pts : list row) (i : nat) :
  length k = length pts -> length mask = length pts -> i < length pts ->
  nth i (assign k mask (map f (select mask pts))) 0%Z
  = if nth i mask false then f (nth i pts []) else nth i k 0%Z.
Proof.
  revert mask pts i.
  induction k as [|ki k IH]; intros [|m mask] [|p pts] i Hk Hm Hi;
    simpl in *; try lia.
  destruct m; simpl.
  - destruct i as [|i]; [reflexivity|]. apply IH; lia.
  - destruct i as [|i]; [reflexivity|]. apply IH; lia.
Qed.

Lemma count_true_0 (mask : list bool) (i : nat) :
  count_true mask = 0 -> nth i mask false = false.
Proof.
  unfold count_true. revert i.
  induction mask as [|b mask IH]; intros [|i] H; simpl in *; try reflexivity.
  - destruct b; [discriminate|reflexivity].
  - destruct b; [discriminate|]. now apply IH.
Qed.

Lemma multiplicity_filter (g : row -> bool) (v : row) (l : list row) :
  g v = true -> multiplicity v (filter g l) = multiplicity v l.
Proof.
  intros Hg. unfold multiplicity.
  induction l as [|r l IH]; simpl; [reflexivity|].
  destruct (g r) eqn:Er; simpl.
  - destruct (row_eqb r v); simpl; now rewrite IH.
  - destruct (row_eqb r v) eqn:E; simpl; [|exact IH].
    apply row_eqb_eq in E. congruence.
Qed.

(** The tie-break, sample by sample, when the radius of a sample is a
    function [rho] of its row. *)
Lemma tie_break_nth (joint : ndarray) (rho : row -> N) (c : Z) (i : nat) :
  i < length (rows joint) ->
  nth i (tie_break joint (map rho (rows joint))
                   (repeat c (length (rows joint)))) 0%Z
  = if (rho (nth i (rows joint) []) =? 0)%N
    then (Z.of_nat (multiplicity (nth i (rows joint) []) (rows joint)) - 1)%Z
    else c.
Proof.
  intros Hi. unfold tie_break. set (pts := rows joint) in *.
  rewrite map_map.
  set (g := fun p => (rho p =? 0)%N).
  assert (Hm : nth i (map g pts) false = g (nth i pts [])).
  { now apply nth_map_lt. }
  destruct (Nat.ltb_spec 0 (count_true (map g pts))) as [Hc|Hc].
  - rewrite select_map_filter.
    pose proof (np_unique_counts (filter g pts)) as Hu.
    destruct (np_unique (filter g pts)) as [[vals ix] counts].
    rewrite <- (map_map (fun j => nth j counts 0%Z) (fun z => (z - 1)%Z)).
    rewrite Hu, map_map, <- select_map_filter.
    rewrite assign_nth;
      [|now rewrite repeat_length|now rewrite length_map|exact Hi].
    rewrite Hm. change (rho (nth i pts []) =? 0)%N with (g (nth i pts [])).
    destruct (g (nth i pts [])) eqn:Eg.
    + now rewrite select_map_filter, multiplicity_filter.
    + apply nth_repeat_lt. exact Hi.
  - assert (E : g (nth i pts []) = false).
    { rewrite <- Hm. apply count_true_0. lia. }
    change (rho (nth i pts []) =? 0)%N with (g (nth i pts [])).
    rewrite E. apply nth_repeat_lt. exact Hi.
Qed.

(** ** Facts on the float64 model *)

Lemma nextafter0_zero : nextafter0 0 = 0%N.
Proof. reflexivity. Qed.

(** Below a positive double, [nextafter0] is the greatest double. *)
Lemma nextafter0_pos (d : N) :
  (0 < d)%N ->
  (nextafter0 d < d)%N /\ forall r, (r < d)%N <-> (r <= nextafter0 d)%N.
Proof.
  unfold nextafter0. intros H. split; [lia|]. intros r. lia.
Qed.


(** A difference that rounds to 0 or to the smallest subnormal is that
    difference: no rounding takes place below [2^53] units. *)
Lemma round_ord_small (m : N) : (round_ord m <= 1)%N -> round_ord m = m.
Proof.
  unfold round_ord. destruct (N.ltb_spec m (2 ^ 53)) as [Hm|Hm];
    [reflexivity|].
  intros H. exfalso.
  assert (Hl : (53 <= N.log2 m)%N).
  { apply N.log2_le_pow2; [|exact Hm].
    apply N.lt_le_trans with (2 := Hm). reflexivity. }
  set (e := (N.log2 m - 52)%N) in *.
  assert (He : (1 <= e)%N) by (unfold e; lia).
  apply N.min_le_iff in H as [H|H].
  - revert H. vm_compute. intros H. now apply H.
  - change (2 ^ 52)%N with 4503599627370496%N in H. lia.
Qed.

Lemma absdiff_small (a b : float64) :
  (absdiff a b <= 1)%N -> absdiff a b = Z.to_N (Z.abs (a - b)).
Proof. unfold absdiff. apply round_ord_small. Qed.

Lemma absdiff_eq0 (a b : float64) : absdiff a b = 0%N -> a = b.
Proof.
  intros H. pose proof (absdiff_small a b) as E.
  rewrite H in E. specialize (E ltac:(lia)). lia.
Qed.


Lemma chebyshev_cons (a b : float64) (p q : row) :
  chebyshev (a :: p) (b :: q) = N.max (absdiff a b) (chebyshev p q).
Proof. reflexivity. Qed.

Lemma chebyshev_eq0 (p q : row) :
  length p = length q -> chebyshev p q = 0%N -> p = q.
Proof.
  revert q. induction p as [|a p IH]; intros [|b q] Hl H; simpl in Hl;
    try discriminate; [reflexivity|].
  rewrite chebyshev_cons in H.
  f_equal; [apply absdiff_eq0|apply IH]; lia.
Qed.


(** ** The distance to the k-th nearest neighbour *)


Lemma kth_dist_counts (pts : list row) (k : nat) (p : row) :
  k < length pts ->
  length (filter (fun q => (chebyshev p q <? kth_dist pts k p)%N) pts) <= k /\
  k + 1
  <= length (filter (fun q => (chebyshev p q <=? kth_dist pts k p)%N) pts).
Proof.
  intros Hk. unfold kth_dist.
  destruct (@sorted_rank (sort_dists (map (chebyshev p) pts)) k
              (sort_dists_sorted _)) as [H1 H2].
  { now rewrite sort_dists_length, length_map. }
  rewrite sort_dists_filter, filter_length_map in H1, H2. now split.
Qed.

Lemma kth_dist_rank (pts : list row) (i k : nat) :
  i < length pts -> k < length pts ->
  let d := kth_dist pts k (nth i pts []) in
  others_closer pts i d + (if (0 <? d)%N then 1 else 0) <= k /\
  k <= others_within pts i d.
Proof.
  intros Hi Hk. destruct (@kth_dist_counts pts k (nth i pts []) Hk) as [H1 H2].
  revert H1 H2. generalize (kth_dist pts k (nth i pts [])). intros d H1 H2.
  pose proof (@count_within_others pts i (fun x => (x <? d)%N) Hi) as E1.
  pose proof (@count_within_others pts i (fun x => (x <=? d)%N) Hi) as E2.
  cbv beta in E1, E2. unfold others_closer, others_within. simpl.
  destruct (N.leb_spec 0%N d); lia.
Qed.

Lemma kth_dist_is_kth (pts : list row) (i k : nat) :
  i < length pts -> 1 <= k < length pts ->
  is_kth_neighbor_dist pts i k (kth_dist pts k (nth i pts [])).
Proof.
  intros Hi Hk. destruct (@kth_dist_rank pts i k Hi) as [H1 H2]; [lia|].
  split; [|exact H2].
  destruct (N.ltb_spec 0%N (kth_dist pts k (nth i pts []))) as [Hd|Hd].
  - lia.
  - assert (E : others_closer pts i (kth_dist pts k (nth i pts [])) = 0).
    { unfold others_closer, count_others.
      rewrite (@filter_length_ext _ _ (fun _ => false)).
      - clear. induction (seq 0 (length pts)); simpl; auto.
      - intros j _. destruct (N.ltb_spec
          (chebyshev (nth i pts []) (nth j pts []))
          (kth_dist pts k (nth i pts []))); [lia|apply andb_false_r]. }
    lia.
Qed.

(** Within the radius of a positive distance lie the points strictly
    closer than that distance. *)
Lemma others_within_nextafter0 (pts : list row) (i : nat) (d : N) :
  (0 < d)%N -> others_within pts i (nextafter0 d) = others_closer pts i d.
Proof.
  intros Hd. unfold others_within, others_closer, count_others.
  apply filter_length_ext. intros j _. f_equal.
  destruct (nextafter0_pos Hd) as [_ H].
  destruct (N.leb_spec (chebyshev (nth i pts []) (nth j pts []))
                       (nextafter0 d)) as [H1|H1];
    destruct (N.ltb_spec (chebyshev (nth i pts []) (nth j pts [])) d)
      as [H2|H2]; try reflexivity.
  - apply H in H1. lia.
  - apply H in H2. lia.
Qed.

(** When the [k-1]-th and [k]-th nearest other points are at different
    distances, exactly [k-1] other points are strictly closer than the
    [k]-th. *)
Lemma kth_dist_strict (pts : list row) (i k : nat) :
  i < length pts -> S k < length pts ->
  (kth_dist pts k (nth i pts []) < kth_dist pts (S k) (nth i pts []))%N ->
  others_closer pts i (kth_dist pts (S k) (nth i pts [])) = k.
Proof.
  intros Hi Hk Hlt. unfold kth_dist in *.
  pose proof (@sorted_rank_strict
                (sort_dists (map (chebyshev (nth i pts [])) pts)) k
                (sort_dists_sorted _)) as H.
  rewrite sort_dists_filter, sort_dists_length, length_map,
    filter_length_map in H.
  specialize (H Hk Hlt). revert H Hlt.
  generalize (nth (S k) (sort_dists (map (chebyshev (nth i pts [])) pts)) 0%N).
  intros d H Hlt.
  pose proof (@count_within_others pts i (fun x => (x <? d)%N) Hi) as E.
  cbv beta in E. unfold others_closer.
  destruct (N.ltb_spec 0%N d); lia.
Qed.

(** ** The final reduction *)

Lemma py_max0_Rmax (v : R) : py_max0 v = Rmax 0 v.
Proof.
  unfold py_max0, Rmax. destruct (Rlt_dec 0 v), (Rle_dec 0 v); lra.
Qed.

Lemma py_max0_nonneg (v : R) : (0 <= py_max0 v)%R.
Proof. unfold py_max0. destruct (Rlt_dec 0 v); lra. Qed.

Lemma py_max0_clamp (v : R) : (v <= 0)%R -> py_max0 v = 0%R.
Proof. unfold py_max0. destruct (Rlt_dec 0 v); lra. Qed.

(** ** Discrete samples *)





Lemma filter_length_le {A} (f g : A -> bool) (l : list A) :
  (forall a, In a l -> f a = true -> g a = true) ->
  length (filter f l) <= length (filter g l).
Proof.
  induction l as [|a l IH]; intros H; simpl; [lia|].
  assert (IH' : length (filter f l) <= length (filter g l)).
  { apply IH. intros b Hb. apply H. now right. }
  destruct (f a) eqn:Ef.
  - rewrite (H a (or_introl eq_refl) Ef). simpl. lia.
  - destruct (g a); simpl; lia.
Qed.




(** ** Which step raises what *)

Lemma outcome_bind_err {A B} (m : M A) (f : A -> M B) (e : error) :
  outcome (bind m f) = Err e ->
  outcome m = Err e \/ exists a, outcome m = Ok a /\ outcome (f a) = Err e.
Proof.
  destruct m as [t [a|e']].
  - rewrite bind_ok. unfold outcome. simpl. intros H. right. eauto.
  - unfold bind, outcome. simpl. intros [= ->]. now left.
Qed.

Ltac lifted H := unfold outcome, lift in H; cbn [snd] in H.

Lemma len_errors (x : ndarray) (e : error) : len x = Err e -> e = Unsized.
Proof. unfold len. destruct (shape x); congruence. Qed.

Lemma ensure_2d_errors (x : ndarray) (e : error) :
  ensure_2d x = Err e -> e = InvalidShape.
Proof. unfold ensure_2d. destruct (ndim x =? 1); congruence. Qed.

Lemma hstack_errors (blocks : list ndarray) (e : error) :
  hstack blocks = Err e -> e = DimensionMismatch.
Proof.
  unfold hstack. destruct blocks as [|x l]; [congruence|].
  destruct (forallb _ _); congruence.
Qed.

Lemma KDTree_errors (x : ndarray) (e : error) :
  outcome (KDTree x) = Err e -> e = EmptyArray.
Proof.
  unfold KDTree. destruct (size x =? 0); simpl; congruence.
Qed.

Lemma get_radius_kneighbors_errors (x : ndarray) (k : nat) (e : error) :
  outcome (get_radius_kneighbors x k) = Err e ->
  e = EmptyArray \/ e = InsufficientSamples.
Proof.
  unfold get_radius_kneighbors. intros H.
  apply outcome_bind_err in H as [H|(kd & _ & H)].
  - left. eapply KDTree_errors, H.
  - apply outcome_bind_err in H as [H|(nd & _ & H)]; [|discriminate].
    unfold query in H. destruct (_ <? _); simpl in H; [|discriminate].
    right. congruence.
Qed.

Lemma num_points_within_radius_errors (x : ndarray) (r : list N) (e : error) :
  outcome (num_points_within_radius x r) = Err e ->
  e = EmptyArray \/ e = RadiusShape.
Proof.
  unfold num_points_within_radius. intros H.
  apply outcome_bind_err in H as [H|(kd & _ & H)].
  - left. eapply KDTree_errors, H.
  - apply outcome_bind_err in H as [H|(nd & _ & H)]; [|discriminate].
    unfold query_radius in H. destruct (_ =? _); simpl in H; [discriminate|].
    right. congruence.
Qed.

(** * The claims *)

Section Claims.

Variable rng : Type.
Variable draw : noise_kind -> rng -> float64 * rng.
Variable perturb : noise_kind -> list float64 -> float64 -> float64 -> float64.
Variable digamma : R -> R.

(** C2.  On valid sample blocks of [n > n_neighbors] samples,
    [compute_mi] returns
    [max(0, psi(n) + mean(psi(k_i)) - mean(psi(nx+1)) - mean(psi(ny+1)))],
    where the radius is the one of the joint space of the (possibly
    jittered) blocks, and [nx], [ny] count, for each sample, the other
    samples within that radius in the X block and in the Y block. *)
Theorem compute_mi_formula (x y x2 y2 : ndarray) (n k : nat)
        (noise_type : pyval) (g : rng) :
  sample_block x n x2 -> sample_block y n y2 -> k < n ->
  noise_ok noise_type ->
  exists s : mi_locals,
    outcome (compute_mi_locals draw perturb x y k noise_type g) = Ok s /\
    outcome (compute_mi draw perturb digamma x y k noise_type g)
    = Ok (Rmax 0
            (digamma (INR n)
             + mean (map (fun ki => digamma (IZR ki)) (mi_k s))
             - mean (map (fun c => digamma (IZR (c + 1))) (mi_nx s))
             - mean (map (fun c => digamma (IZR (c + 1))) (mi_ny s)))) /\
    noise2 draw perturb noise_type x2 y2 g = Ok (mi_x s, mi_y s) /\
    rows (mi_xy s) = zip_with (@app float64) (rows (mi_x s)) (rows (mi_y s)) /\
    mi_radius s = map (radius_of (rows (mi_xy s)) k) (rows (mi_xy s)) /\
    mi_nx s = map (fun i => Z.of_nat (others_within (rows (mi_x s)) i
                                        (nth i (mi_radius s) 0%N)))
                  (seq 0 n) /\
    mi_ny s = map (fun i => Z.of_nat (others_within (rows (mi_y s)) i
                                        (nth i (mi_radius s) 0%N)))
                  (seq 0 n).
Proof.
  intros Sx Sy Hk Hok.
  destruct (compute_mi_locals_run draw perturb g Sx Sy Hk Hok)
    as (x' & y' & xy & En & Bx & By & Eh & Bxy & Rxy & Erun).
  cbv zeta in Erun.
  assert (Lr : length (map (radius_of (rows xy) k) (rows xy)) = n).
  { now rewrite length_map, (block_rows_length Bxy). }
  eexists. split; [rewrite Erun; reflexivity|].
  split; [|split; [|split; [|split; [|split]]]];
    cbn [mi_x mi_y mi_xy mi_radius mi_k mi_nx mi_ny].
  - unfold compute_mi. rewrite outcome_fmap, Erun. cbn [outcome snd].
    f_equal. unfold mi_estimate. rewrite py_max0_Rmax. reflexivity.
  - exact En.
  - exact Rxy.
  - reflexivity.
  - rewrite counts_of_others, (block_rows_length Bx);
      [reflexivity|now rewrite (block_rows_length Bx)].
  - rewrite counts_of_others, (block_rows_length By);
      [reflexivity|now rewrite (block_rows_length By)].
Qed.

(** C3.  On valid sample blocks of [n > n_neighbors] samples,
    [compute_cmi] returns
    [max(0, mean(psi(k_i)) - mean(psi(nxz+1)) - mean(psi(nyz+1))
            + mean(psi(nz+1)))]
    with no [psi(n)] term, where the radius is the one of the joint
    space XYZ and [nxz], [nyz], [nz] count the other samples within it in
    the spaces XZ, YZ and Z. *)
Theorem compute_cmi_formula (x y z x2 y2 z2 : ndarray) (n k : nat)
        (noise_type : pyval) (g : rng) :
  sample_block x n x2 -> sample_block y n y2 -> sample_block z n z2 ->
  k < n -> noise_ok noise_type ->
  exists s : cmi_locals,
    outcome (compute_cmi_locals draw perturb x y z k noise_type g) = Ok s /\
    outcome (compute_cmi draw perturb digamma x y z k noise_type g)
    = Ok (Rmax 0
            (mean (map (fun ki => digamma (IZR ki)) (cmi_k s))
             - mean (map (fun c => digamma (IZR (c + 1))) (cmi_nxz s))
             - mean (map (fun c => digamma (IZR (c + 1))) (cmi_nyz s))
             + mean (map (fun c => digamma (IZR (c + 1))) (cmi_nz s)))) /\
    noise3 draw perturb noise_type x2 y2 z2 g
    = Ok (cmi_x s, cmi_y s, cmi_z s) /\
    rows (cmi_xyz s)
    = zip_with (@app float64) (rows (cmi_x s))
        (zip_with (@app float64) (rows (cmi_y s)) (rows (cmi_z s))) /\
    cmi_radius s = map (radius_of (rows (cmi_xyz s)) k) (rows (cmi_xyz s)) /\
    cmi_nxz s
    = map (fun i => Z.of_nat
             (others_within
                (zip_with (@app float64) (rows (cmi_x s)) (rows (cmi_z s)))
                i (nth i (cmi_radius s) 0%N)))
          (seq 0 n) /\
    cmi_nyz s
    = map (fun i => Z.of_nat
             (others_within
                (zip_with (@app float64) (rows (cmi_y s)) (rows (cmi_z s)))
                i (nth i (cmi_radius s) 0%N)))
          (seq 0 n) /\
    cmi_nz s
    = map (fun i => Z.of_nat (others_within (rows (cmi_z s)) i
                                (nth i (cmi_radius s) 0%N)))
          (seq 0 n).
Proof.
  intros Sx Sy Sz Hk Hok.
  destruct (compute_cmi_locals_run draw perturb g Sx Sy Sz Hk Hok)
    as (x' & y' & z' & xyz & xz & yz & En & Bx & By & Bz & Eh & Bxyz
        & Rxyz & Exz & Bxz & Rxz & Eyz & Byz & Ryz & Erun).
  cbv zeta in Erun.
  assert (Lr : length (map (radius_of (rows xyz) k) (rows xyz)) = n).
  { now rewrite length_map, (block_rows_length Bxyz). }
  eexists. split; [rewrite Erun; reflexivity|].
  split; [|split; [|split; [|split; [|split; [|split]]]]];
    cbn [cmi_x cmi_y cmi_z cmi_xyz cmi_radius cmi_k cmi_nxz cmi_nyz cmi_nz].
  - unfold compute_cmi. rewrite outcome_fmap, Erun. cbn [outcome snd].
    f_equal. unfold cmi_estimate. rewrite py_max0_Rmax. reflexivity.
  - exact En.
  - exact Rxyz.
  - reflexivity.
  - rewrite counts_of_others, (block_rows_length Bxz), Rxz;
      [reflexivity|now rewrite (block_rows_length Bxz)].
  - rewrite counts_of_others, (block_rows_length Byz), Ryz;
      [reflexivity|now rewrite (block_rows_length Byz)].
  - rewrite counts_of_others, (block_rows_length Bz);
      [reflexivity|now rewrite (block_rows_length Bz)].
Qed.

(** C8.  Whatever [compute_mi] and [compute_cmi] return is at least 0,
    and on valid input they do return: the estimate is [max(0, raw)],
    which is exactly 0 when the raw estimate is not positive. *)
Theorem estimates_nonnegative (x y z x2 y2 z2 : ndarray) (n k : nat)
        (noise_type : pyval) (g : rng) :
  sample_block x n x2 -> sample_block y n y2 -> sample_block z n z2 ->
  k < n -> noise_ok noise_type ->
  (exists s, outcome (compute_mi_locals draw perturb x y k noise_type g)
             = Ok s /\
             outcome (compute_mi draw perturb digamma x y k noise_type g)
             = Ok (Rmax 0 (mi_raw digamma s)) /\
             (0 <= Rmax 0 (mi_raw digamma s))%R /\
             ((mi_raw digamma s <= 0)%R -> Rmax 0 (mi_raw digamma s) = 0%R))
  /\
  (exists s, outcome (compute_cmi_locals draw perturb x y z k noise_type g)
             = Ok s /\
             outcome (compute_cmi draw perturb digamma x y z k noise_type g)
             = Ok (Rmax 0 (cmi_raw digamma s)) /\
             (0 <= Rmax 0 (cmi_raw digamma s))%R /\
             ((cmi_raw digamma s <= 0)%R ->
              Rmax 0 (cmi_raw digamma s) = 0%R))
  /\
  (forall (a b : ndarray) (k' : nat) (nt : pyval) (g' : rng) (v : R),
      outcome (compute_mi draw perturb digamma a b k' nt g') = Ok v ->
      (0 <= v)%R)
  /\
  (forall (a b c : ndarray) (k' : nat) (nt : pyval) (g' : rng) (v : R),
      outcome (compute_cmi draw perturb digamma a b c k' nt g') = Ok v ->
      (0 <= v)%R).
Proof.
  intros Sx Sy Sz Hk Hok. split; [|split; [|split]].
  - destruct (compute_mi_locals_run draw perturb g Sx Sy Hk Hok)
      as (x' & y' & xy & _ & _ & _ & _ & _ & _ & Erun).
    cbv zeta in Erun. eexists. split; [rewrite Erun; reflexivity|].
    rewrite <- py_max0_Rmax. split; [|split].
    + unfold compute_mi. rewrite outcome_fmap, Erun. reflexivity.
    + apply py_max0_nonneg.
    + apply py_max0_clamp.
  - destruct (compute_cmi_locals_run draw perturb g Sx Sy Sz Hk Hok)
      as (x' & y' & z' & xyz & xz & yz & _ & _ & _ & _ & _ & _ & _ & _
          & _ & _ & _ & _ & _ & Erun).
    cbv zeta in Erun. eexists. split; [rewrite Erun; reflexivity|].
    rewrite <- py_max0_Rmax. split; [|split].
    + unfold compute_cmi. rewrite outcome_fmap, Erun. reflexivity.
    + apply py_max0_nonneg.
    + apply py_max0_clamp.
  - intros a b k' nt g' v H. unfold compute_mi in H.
    rewrite outcome_fmap in H.
    destruct (outcome (compute_mi_locals draw perturb a b k' nt g'));
      [|discriminate].
    injection H as <-. apply py_max0_nonneg.
  - intros a b c k' nt g' v H. unfold compute_cmi in H.
    rewrite outcome_fmap in H.
    destruct (outcome (compute_cmi_locals draw perturb a b c k' nt g'));
      [|discriminate].
    injection H as <-. apply py_max0_nonneg.
Qed.

(** C4.  With [noise_type] unset, a sample whose joint-space radius is 0
    gets as neighbour count the number of samples that share its joint
    row, less one; a sample whose radius is not 0 keeps [n_neighbors].
    This holds in [compute_mi] (joint space XY) and in [compute_cmi]
    (joint space XYZ). *)
Theorem tie_break_multiplicity (x y z x2 y2 z2 : ndarray) (n k : nat)
        (g : rng) :
  sample_block x n x2 -> sample_block y n y2 -> sample_block z n z2 ->
  k < n ->
  (exists s, outcome (compute_mi_locals draw perturb x y k PyNone g) = Ok s /\
     forall i, i < n ->
       (nth i (mi_radius s) 0%N = 0%N ->
        nth i (mi_k s) 0%Z
        = (Z.of_nat (multiplicity (nth i (rows (mi_xy s)) [])
                                  (rows (mi_xy s))) - 1)%Z) /\
       (nth i (mi_radius s) 0%N <> 0%N ->
        nth i (mi_k s) 0%Z = Z.of_nat k))
  /\
  (exists s, outcome (compute_cmi_locals draw perturb x y z k PyNone g)
             = Ok s /\
     forall i, i < n ->
       (nth i (cmi_radius s) 0%N = 0%N ->
        nth i (cmi_k s) 0%Z
        = (Z.of_nat (multiplicity (nth i (rows (cmi_xyz s)) [])
                                  (rows (cmi_xyz s))) - 1)%Z) /\
       (nth i (cmi_radius s) 0%N <> 0%N ->
        nth i (cmi_k s) 0%Z = Z.of_nat k)).
Proof.
  intros Sx Sy Sz Hk.
  assert (Hok : noise_ok PyNone) by (now left).
  split.
  - destruct (compute_mi_locals_run draw perturb g Sx Sy Hk Hok)
      as (x' & y' & xy & _ & _ & _ & _ & Bxy & _ & Erun).
    cbv zeta in Erun. eexists. split; [rewrite Erun; reflexivity|].
    cbn [mi_radius mi_k mi_xy]. unfold k_of. cbn [is_none].
    pose proof (block_rows_length Bxy) as Ln.
    intros i Hi. rewrite <- Ln in Hi.
    rewrite <- Ln at 1 2.
    rewrite (@tie_break_nth xy (radius_of (rows xy) k) (Z.of_nat k) i Hi).
    rewrite (nth_map_lt (radius_of (rows xy) k) (rows xy) [] 0%N Hi).
    destruct (N.eqb_spec (radius_of (rows xy) k (nth i (rows xy) [])) 0%N);
      split; intros; congruence.
  - destruct (compute_cmi_locals_run draw perturb g Sx Sy Sz Hk Hok)
      as (x' & y' & z' & xyz & xz & yz & _ & _ & _ & _ & _ & Bxyz & _ & _
          & _ & _ & _ & _ & _ & Erun).
    cbv zeta in Erun. eexists. split; [rewrite Erun; reflexivity|].
    cbn [cmi_radius cmi_k cmi_xyz]. unfold k_of. cbn [is_none].
    pose proof (block_rows_length Bxyz) as Ln.
    intros i Hi. rewrite <- Ln in Hi.
    rewrite <- Ln at 1 2.
    rewrite (@tie_break_nth xyz (radius_of (rows xyz) k) (Z.of_nat k) i Hi).
    rewrite (nth_map_lt (radius_of (rows xyz) k) (rows xyz) [] 0%N Hi).
    destruct (N.eqb_spec (radius_of (rows xyz) k (nth i (rows xyz) [])) 0%N);
      split; intros; congruence.
Qed.

Lemma compute_mi_locals_falsy_errors (x y : ndarray) (k : nat)
      (noise_type : pyval) (g : rng) (e : error) :
  truthy noise_type = false ->
  outcome (compute_mi_locals draw perturb x y k noise_type g) = Err e ->
  e <> InvalidNoiseKind.
Proof.
  intros Ht H. unfold compute_mi_locals in H. rewrite Ht in H.
  apply outcome_bind_err in H as [H|(n & _ & H)];
    [lifted H; apply len_errors in H; congruence|].
  apply outcome_bind_err in H as [H|(x2 & _ & H)];
    [lifted H; apply ensure_2d_errors in H; congruence|].
  apply outcome_bind_err in H as [H|(y2 & _ & H)];
    [lifted H; apply ensure_2d_errors in H; congruence|].
  apply outcome_bind_err in H as [H|([x' y'] & _ & H)]; [discriminate|].
  apply outcome_bind_err in H as [H|(xy & _ & H)];
    [lifted H; apply hstack_errors in H; congruence|].
  apply outcome_bind_err in H as [H|(radius & _ & H)];
    [apply get_radius_kneighbors_errors in H as [->| ->]; congruence|].
  apply outcome_bind_err in H as [H|(nx & _ & H)];
    [apply num_points_within_radius_errors in H as [->| ->]; congruence|].
  apply outcome_bind_err in H as [H|(ny & _ & H)];
    [apply num_points_within_radius_errors in H as [->| ->]; congruence|].
  discriminate.
Qed.

Lemma compute_cmi_locals_falsy_errors (x y z : ndarray) (k : nat)
      (noise_type : pyval) (g : rng) (e : error) :
  truthy noise_type = false ->
  outcome (compute_cmi_locals draw perturb x y z k noise_type g) = Err e ->
  e <> InvalidNoiseKind.
Proof.
  intros Ht H. unfold compute_cmi_locals in H. rewrite Ht in H.
  apply outcome_bind_err in H as [H|(n & _ & H)];
    [lifted H; apply len_errors in H; congruence|].
  apply outcome_bind_err in H as [H|(x2 & _ & H)];
    [lifted H; apply ensure_2d_errors in H; congruence|].
  apply outcome_bind_err in H as [H|(y2 & _ & H)];
    [lifted H; apply ensure_2d_errors in H; congruence|].
  apply outcome_bind_err in H as [H|(z2 & _ & H)];
    [lifted H; apply ensure_2d_errors in H; congruence|].
  apply outcome_bind_err in H as [H|([[x' y'] z'] & _ & H)];
    [discriminate|].
  apply outcome_bind_err in H as [H|(xyz & _ & H)];
    [lifted H; apply hstack_errors in H; congruence|].
  apply outcome_bind_err in H as [H|(radius & _ & H)];
    [apply get_radius_kneighbors_errors in H as [->| ->]; congruence|].
  apply outcome_bind_err in H as [H|(xz & _ & H)];
    [lifted H; apply hstack_errors in H; congruence|].
  apply outcome_bind_err in H as [H|(nxz & _ & H)];
    [apply num_points_within_radius_errors in H as [->| ->]; congruence|].
  apply outcome_bind_err in H as [H|(yz & _ & H)];
    [lifted H; apply hstack_errors in H; congruence|].
  apply outcome_bind_err in H as [H|(nyz & _ & H)];
    [apply num_points_within_radius_errors in H as [->| ->]; congruence|].
  apply outcome_bind_err in H as [H|(nz & _ & H)];
    [apply num_points_within_radius_errors in H as [->| ->]; congruence|].
  discriminate.
Qed.

(** C10.  When [noise_type] is falsy without being [None], neither
    estimator ever fails with the invalid-noise error; on valid input
    the blocks reach the queries unjittered and every sample keeps
    [k_i = n_neighbors], whatever the radii. *)
Theorem falsy_noise_type_keeps_n_neighbors (x y z x2 y2 z2 : ndarray)
        (n k : nat) (noise_type : pyval) (g : rng) :
  truthy noise_type = false -> is_none noise_type = false ->
  sample_block x n x2 -> sample_block y n y2 -> sample_block z n z2 ->
  k < n ->
  (exists s, outcome (compute_mi_locals draw perturb x y k noise_type g)
             = Ok s /\
             mi_x s = x2 /\ mi_y s = y2 /\
             mi_k s = repeat (Z.of_nat k) n)
  /\
  (exists s, outcome (compute_cmi_locals draw perturb x y z k noise_type g)
             = Ok s /\
             cmi_x s = x2 /\ cmi_y s = y2 /\ cmi_z s = z2 /\
             cmi_k s = repeat (Z.of_nat k) n)
  /\
  (forall (a b : ndarray) (k' : nat) (g' : rng),
      outcome (compute_mi draw perturb digamma a b k' noise_type g')
      <> Err InvalidNoiseKind)
  /\
  (forall (a b c : ndarray) (k' : nat) (g' : rng),
      outcome (compute_cmi draw perturb digamma a b c k' noise_type g')
      <> Err InvalidNoiseKind).
Proof.
  intros Ht Hn Sx Sy Sz Hk.
  assert (Hok : noise_ok noise_type) by (now left).
  split; [|split; [|split]].
  - destruct (compute_mi_locals_run draw perturb g Sx Sy Hk Hok)
      as (x' & y' & xy & En & _ & _ & _ & _ & _ & Erun).
    cbv zeta in Erun. unfold noise2 in En. rewrite Ht in En.
    injection En as <- <-.
    eexists. split; [rewrite Erun; reflexivity|].
    cbn [mi_x mi_y mi_k]. unfold k_of. rewrite Hn. auto.
  - destruct (compute_cmi_locals_run draw perturb g Sx Sy Sz Hk Hok)
      as (x' & y' & z' & xyz & xz & yz & En & _ & _ & _ & _ & _ & _ & _
          & _ & _ & _ & _ & _ & Erun).
    cbv zeta in Erun. unfold noise3 in En. rewrite Ht in En.
    injection En as <- <- <-.
    eexists. split; [rewrite Erun; reflexivity|].
    cbn [cmi_x cmi_y cmi_z cmi_k]. unfold k_of. rewrite Hn. auto.
  - intros a b k' g' H. unfold compute_mi in H. rewrite outcome_fmap in H.
    destruct (outcome (compute_mi_locals draw perturb a b k' noise_type g'))
      eqn:E; [discriminate|].
    injection H as ->.
    now apply compute_mi_locals_falsy_errors in E.
  - intros a b c k' g' H. unfold compute_cmi in H.
    rewrite outcome_fmap in H.
    destruct (outcome (compute_cmi_locals draw perturb a b c k'
                                          noise_type g'))
      eqn:E; [discriminate|].
    injection H as ->.
    now apply compute_cmi_locals_falsy_errors in E.
Qed.

(** C5, as the code has it.  When the sample counts of two accepted
    blocks differ, [compute_mi] fails before any spatial index is built
    and returns nothing: with the mismatch of [np.hstack] when the
    jitter step lets the blocks through, with the invalid-noise error
    of the jitter step, which comes first, otherwise. *)
Theorem compute_mi_sample_count_mismatch (x y x2 y2 : ndarray)
        (n m k : nat) (noise_type : pyval) (g : rng) :
  sample_block x n x2 -> sample_block y m y2 -> n <> m ->
  trace (compute_mi draw perturb digamma x y k noise_type g) = [] /\
  (noise_ok noise_type ->
   outcome (compute_mi draw perturb digamma x y k noise_type g)
   = Err DimensionMismatch) /\
  (~ noise_ok noise_type ->
   outcome (compute_mi draw perturb digamma x y k noise_type g)
   = Err InvalidNoiseKind).
Proof.
  intros Sx Sy Hnm.
  destruct (compute_mi_locals_mismatch draw perturb k noise_type g
                                       Sx Sy Hnm) as [H1 H2].
  unfold compute_mi. rewrite trace_fmap, outcome_fmap.
  assert (D : noise_ok noise_type \/ ~ noise_ok noise_type).
  { unfold noise_ok. destruct (truthy noise_type);
      destruct (eq_str noise_type "uniform");
      destruct (eq_str noise_type "normal"); intuition congruence. }
  split; [destruct D as [D|D]; [rewrite (H1 D)|rewrite (H2 D)]; reflexivity|].
  split; intros D'; [rewrite (H1 D')|rewrite (H2 D')]; reflexivity.
Qed.

(** C6, as the code has it.  With [n_neighbors >= n_samples] and at
    least one sample, both estimators build the index of the joint space
    and then fail, in its k-nearest-neighbour query, with the
    insufficient-samples error; without any sample the construction of
    that index refuses the empty array.  The neighbour count is not
    clamped and nothing is returned. *)
Theorem too_few_samples_fail_in_query (x y z x2 y2 z2 : ndarray)
        (n k : nat) (noise_type : pyval) (g : rng) :
  sample_block x n x2 -> sample_block y n y2 -> sample_block z n z2 ->
  n <= k -> noise_ok noise_type ->
  (1 <= n ->
   compute_mi draw perturb digamma x y k noise_type g
   = ([BuildIndex n 2], Err InsufficientSamples) /\
   compute_cmi draw perturb digamma x y z k noise_type g
   = ([BuildIndex n 3], Err InsufficientSamples)) /\
  (n = 0 ->
   compute_mi draw perturb digamma x y k noise_type g
   = ([], Err EmptyArray) /\
   compute_cmi draw perturb digamma x y z k noise_type g
   = ([], Err EmptyArray)).
Proof.
  intros Sx Sy Sz Hk Hok. unfold compute_mi, compute_cmi. split.
  - intros Hn.
    rewrite (compute_mi_locals_short draw perturb g Sx Sy (conj Hn Hk) Hok).
    rewrite (compute_cmi_locals_short draw perturb g Sx Sy Sz (conj Hn Hk) Hok).
    split; reflexivity.
  - intros ->.
    rewrite (compute_mi_locals_empty draw perturb k g Sx Sy Hok).
    rewrite (compute_cmi_locals_empty draw perturb k g Sx Sy Sz Hok).
    split; reflexivity.
Qed.


End Claims.

(** C7, as the code has it.  On a point set of [n] points and for
    [1 <= k < n], let [d] be the distance from a point to its k-th nearest
    other point.  Its radius is [nextafter(d, 0)].  When [d > 0] the
    radius is the greatest double below [d], and the count on the same
    point set is the number of other points strictly closer than [d]: at
    most [k - 1], and [k - 1] when the neighbour before the k-th is
    strictly closer.  When [d = 0] the radius is 0 and the count is the
    number of other points at distance 0, at least [k]. *)
Theorem radius_strictly_below_kth_distance (n w k : nat) (x : ndarray) :
  block n w x -> 1 <= w -> 1 <= k < n ->
  exists (radius : list N) (counts : list Z),
    get_radius_kneighbors x k = ([BuildIndex n w], Ok radius) /\
    num_points_within_radius x radius = ([BuildIndex n w], Ok counts) /\
    forall i, i < n ->
      let d := kth_dist (rows x) k (nth i (rows x) []) in
      is_kth_neighbor_dist (rows x) i k d /\
      nth i radius 0%N = nextafter0 d /\
      ((0 < d)%N ->
       (nth i radius 0 < d)%N /\
       (forall r, (r < d)%N -> (r <= nth i radius 0)%N) /\
       nth i counts 0%Z = Z.of_nat (others_closer (rows x) i d) /\
       (nth i counts 0 <= Z.of_nat k - 1)%Z /\
       ((kth_dist (rows x) (k - 1) (nth i (rows x) []) < d)%N ->
        nth i counts 0%Z = (Z.of_nat k - 1)%Z)) /\
      (d = 0%N ->
       nth i radius 0%N = 0%N /\
       nth i counts 0%Z = Z.of_nat (others_within (rows x) i 0) /\
       (Z.of_nat k <= nth i counts 0)%Z).
Proof.
  intros Bx Hw Hk.
  pose proof (block_rows_length Bx) as Ln.
  assert (Hne : n * w <> 0) by nia.
  eexists _, _.
  split; [apply (get_radius_kneighbors_run Bx Hne); lia|].
  split.
  { apply (@num_points_within_radius_run n w x _ Bx Hne).
    now rewrite length_map. }
  intros i Hi d. rewrite <- Ln in Hi, Hk.
  fold (radius_of (rows x) k).
  fold (counts_of (rows x) (map (radius_of (rows x) k) (rows x))).
  rewrite counts_of_others by now rewrite length_map.
  rewrite nth_map_seq by exact Hi.
  rewrite (nth_map_lt (radius_of (rows x) k) (rows x) [] 0%N Hi).
  unfold radius_of. fold d.
  destruct (@kth_dist_rank (rows x) i k Hi ltac:(lia)) as [H1 H2].
  fold d in H1, H2.
  split; [apply kth_dist_is_kth; [exact Hi|lia]|].
  split; [reflexivity|]. split.
  - intros Hd. rewrite (others_within_nextafter0 _ _ Hd).
    destruct (nextafter0_pos Hd) as [Hlt Hgr].
    split; [exact Hlt|]. split; [intros r Hr; now apply Hgr|].
    split; [reflexivity|].
    destruct (N.ltb_spec 0%N d) as [_|]; [|lia].
    split; [lia|].
    intros Hs. destruct k as [|k']; [lia|].
    replace (S k' - 1) with k' in Hs by lia.
    unfold d. rewrite (@kth_dist_strict (rows x) i k' Hi ltac:(lia) Hs).
    lia.
  - intros Hd. rewrite Hd in *. rewrite nextafter0_zero.
    split; [reflexivity|]. split; [reflexivity|]. lia.
Qed.

(** C1.  A rank-2 array does not pass through [ensure_2d]: the 2-by-1
    matrix holding 1.0 and 2.0 is refused with the invalid-shape error. *)
Theorem ensure_2d_refuses_rank2 :
  ensure_2d (mk_ndarray [2; 1] [of_int 1; of_int 2]) = Err InvalidShape.
Proof. reflexivity. Qed.

(** ** Concrete runs *)

Ltac by_running := unfold sample_block, wf; repeat split; reflexivity.

Lemma compute_mi_formula_witness :
  exists v, outcome (compute_mi counter_draw add_variate ln
                       (vec [0; 0; 1; 1; 0]%Z) (vec [0; 0; 1; 0; 0]%Z)
                       1 PyNone 0) = Ok v.
Proof.
  destruct (@compute_mi_formula nat counter_draw add_variate ln
              (vec [0; 0; 1; 1; 0]%Z) (vec [0; 0; 1; 0; 0]%Z)
              (col [0; 0; 1; 1; 0]%Z) (col [0; 0; 1; 0; 0]%Z)
              5 1 PyNone 0)
    as (s & _ & H & _);
    [by_running|by_running|vm_compute; lia|left; reflexivity|].
  eexists. exact H.
Defined.

Lemma compute_cmi_formula_witness :
  exists v, outcome (compute_cmi counter_draw add_variate ln
                       (vec [0; 0; 1; 1; 0]%Z) (vec [0; 0; 1; 0; 0]%Z)
                       (vec [2; 2; 2; 3; 3]%Z) 1 (PyStr "uniform") 0) = Ok v.
Proof.
  destruct (@compute_cmi_formula nat counter_draw add_variate ln
              (vec [0; 0; 1; 1; 0]%Z) (vec [0; 0; 1; 0; 0]%Z)
              (vec [2; 2; 2; 3; 3]%Z)
              (col [0; 0; 1; 1; 0]%Z) (col [0; 0; 1; 0; 0]%Z)
              (col [2; 2; 2; 3; 3]%Z) 5 1 (PyStr "uniform") 0)
    as (s & _ & H & _);
    [by_running|by_running|by_running|vm_compute; lia
    |right; left; reflexivity|].
  eexists. exact H.
Defined.

Lemma estimates_nonnegative_witness :
  exists v, outcome (compute_mi counter_draw add_variate ln
                       (vec [0; 1; 3]%Z) (vec [5; 1; 2]%Z) 2
                       (PyStr "normal") 0) = Ok v /\ (0 <= v)%R.
Proof.
  destruct (@estimates_nonnegative nat counter_draw add_variate ln
              (vec [0; 1; 3]%Z) (vec [5; 1; 2]%Z) (vec [0; 0; 0]%Z)
              (col [0; 1; 3]%Z) (col [5; 1; 2]%Z) (col [0; 0; 0]%Z)
              3 2 (PyStr "normal") 0)
    as ((s & _ & H & Hp & _) & _);
    [by_running|by_running|by_running|vm_compute; lia
    |right; right; reflexivity|].
  eexists. split; [exact H|exact Hp].
Defined.

Lemma tie_break_multiplicity_witness :
  exists s, outcome (compute_mi_locals counter_draw add_variate
                       (vec [0; 0; 1; 1; 0]%Z) (vec [0; 0; 1; 0; 0]%Z)
                       1 PyNone 0) = Ok s /\
            nth 0 (mi_radius s) 0%N = 0%N /\ nth 0 (mi_k s) 0%Z = 2%Z /\
            nth 2 (mi_radius s) 0%N <> 0%N /\ nth 2 (mi_k s) 0%Z = 1%Z.
Proof.
  destruct (@tie_break_multiplicity nat counter_draw add_variate
              (vec [0; 0; 1; 1; 0]%Z) (vec [0; 0; 1; 0; 0]%Z)
              (vec [0; 0; 0; 0; 0]%Z)
              (col [0; 0; 1; 1; 0]%Z) (col [0; 0; 1; 0; 0]%Z)
              (col [0; 0; 0; 0; 0]%Z) 5 1 0)
    as ((s & H & Hs) & _);
    [by_running|by_running|by_running|vm_compute; lia|].
  exists s. split; [exact H|].
  destruct (Hs 0 ltac:(vm_compute; lia)) as [H0 _].
  destruct (Hs 2 ltac:(vm_compute; lia)) as [_ H2].
  vm_compute in H. injection H as <-.
  split; [reflexivity|]. split; [apply H0; reflexivity|].
  assert (E : nth 2 [0%N; 0%N; 4607182418800017407%N;
                     4607182418800017407%N; 0%N] 0%N <> 0%N)
    by discriminate.
  split; [exact E|]. apply H2. exact E.
Defined.

Lemma compute_mi_sample_count_mismatch_witness :
  trace (compute_mi counter_draw add_variate ln
           (vec [0; 1]%Z) (vec [0]%Z) 3 PyNone 0) = [] /\
  outcome (compute_mi counter_draw add_variate ln
             (vec [0; 1]%Z) (vec [0]%Z) 3 PyNone 0) = Err DimensionMismatch.
Proof.
  destruct (@compute_mi_sample_count_mismatch nat counter_draw add_variate ln
              (vec [0; 1]%Z) (vec [0]%Z) (col [0; 1]%Z) (col [0]%Z)
              2 1 3 PyNone 0)
    as (Ht & Ho & _); [by_running|by_running|vm_compute; lia|].
  split; [exact Ht|]. apply Ho. left. reflexivity.
Defined.

(** With 2 samples against 1 and the noise type ['foo'], the failure is
    the invalid noise type of the jitter step, not the mismatch. *)
Lemma mismatch_hidden_by_noise_kind :
  len (vec [0; 1]%Z) = Ok 2 /\ len (vec [0]%Z) = Ok 1 /\
  outcome (compute_mi counter_draw add_variate ln
             (vec [0; 1]%Z) (vec [0]%Z) 3 (PyStr "foo") 0)
  = Err InvalidNoiseKind /\
  ~ fails_with_mismatch_before_index
      (compute_mi counter_draw add_variate ln
         (vec [0; 1]%Z) (vec [0]%Z) 3 (PyStr "foo") 0).
Proof.
  assert (E : outcome (compute_mi counter_draw add_variate ln
                         (vec [0; 1]%Z) (vec [0]%Z) 3 (PyStr "foo") 0)
              = Err InvalidNoiseKind).
  { unfold compute_mi. rewrite outcome_fmap.
    replace (outcome (compute_mi_locals counter_draw add_variate
                        (vec [0; 1]%Z) (vec [0]%Z) 3 (PyStr "foo") 0))
      with (@Err mi_locals InvalidNoiseKind) by (vm_compute; reflexivity).
    reflexivity. }
  split; [reflexivity|]. split; [reflexivity|]. split; [exact E|].
  intros [_ H]. rewrite E in H. discriminate.
Qed.

Lemma too_few_samples_fail_in_query_witness :
  compute_mi counter_draw add_variate ln
    (vec [0; 1]%Z) (vec [0; 1]%Z) 2 PyNone 0
  = ([BuildIndex 2 2], Err InsufficientSamples) /\
  compute_cmi counter_draw add_variate ln
    (vec [0; 1]%Z) (vec [0; 1]%Z) (vec [1; 1]%Z) 2 PyNone 0
  = ([BuildIndex 2 3], Err InsufficientSamples).
Proof.
  destruct (@too_few_samples_fail_in_query nat counter_draw add_variate ln
              (vec [0; 1]%Z) (vec [0; 1]%Z) (vec [1; 1]%Z)
              (col [0; 1]%Z) (col [0; 1]%Z) (col [1; 1]%Z) 2 2 PyNone 0)
    as [H _];
    [by_running|by_running|by_running|vm_compute; lia|left; reflexivity|].
  apply H. vm_compute. lia.
Defined.

(** With 2 samples and [n_neighbors = 2], the joint index exists when the
    call fails. *)
Lemma index_built_before_failure :
  trace (compute_mi counter_draw add_variate ln
           (vec [0; 1]%Z) (vec [0; 1]%Z) 2 PyNone 0) = [BuildIndex 2 2] /\
  ~ fails_as_input_validation
      (compute_mi counter_draw add_variate ln
         (vec [0; 1]%Z) (vec [0; 1]%Z) 2 PyNone 0).
Proof.
  assert (E : trace (compute_mi counter_draw add_variate ln
                       (vec [0; 1]%Z) (vec [0; 1]%Z) 2 PyNone 0)
              = [BuildIndex 2 2]).
  { unfold compute_mi. rewrite trace_fmap. vm_compute. reflexivity. }
  split; [exact E|]. intros [H _]. rewrite E in H. discriminate.
Qed.

Lemma radius_strictly_below_kth_distance_witness :
  exists radius counts,
    get_radius_kneighbors (col [0; 1; 3; 3]%Z) 2
    = ([BuildIndex 4 1], Ok radius) /\
    num_points_within_radius (col [0; 1; 3; 3]%Z) radius
    = ([BuildIndex 4 1], Ok counts).
Proof.
  destruct (@radius_strictly_below_kth_distance 4 1 2 (col [0; 1; 3; 3]%Z))
    as (radius & counts & H1 & H2 & _);
    [split; reflexivity|lia|lia|].
  exists radius, counts. split; assumption.
Defined.

(** Three equal points and [k = 1]: the distance to the nearest other
    point is 0 and so is the radius, which is not below it; the query
    counts all three points within it, that is two other points. *)
Lemma radius_claim_fails_on_duplicates :
  kth_dist (rows (col [0; 0; 0]%Z)) 1 [0%Z] = 0%N /\
  outcome (get_radius_kneighbors (col [0; 0; 0]%Z) 1) = Ok [0; 0; 0]%N /\
  outcome (query_radius (mk_kdtree (rows (col [0; 0; 0]%Z)))
                        (col [0; 0; 0]%Z) [0; 0; 0]%N)
  = Ok [3; 3; 3] /\
  outcome (num_points_within_radius (col [0; 0; 0]%Z) [0; 0; 0]%N)
  = Ok [2; 2; 2]%Z /\
  ~ radius_claim_as_stated (col [0; 0; 0]%Z) 1.
Proof.
  split; [reflexivity|]. split; [reflexivity|]. split; [reflexivity|].
  split; [reflexivity|].
  intros (radius & counts & H1 & H2 & H).
  vm_compute in H1. injection H1 as <-.
  vm_compute in H2. injection H2 as <-.
  destruct (H 0 ltac:(vm_compute; lia)) as (_ & Hlt & _ & Hc).
  vm_compute in Hc. discriminate.
Qed.

(** Away from discrete samples a radius of 0 does not need a duplicate:
    two samples one unit of the smallest subnormal apart get radius 0 and
    the neighbour count 0. *)
Lemma subnormal_gap_zero_neighbor_count :
  outcome (compute_mi_locals counter_draw add_variate
             (mk_ndarray [2] [0; 1]%Z) (mk_ndarray [2] [0; 0]%Z)
             1 PyNone 0)
  = Ok (mk_mi_locals 2 (mk_ndarray [2; 1] [0; 1]%Z)
          (mk_ndarray [2; 1] [0; 0]%Z) (mk_ndarray [2; 2] [0; 0; 1; 0]%Z)
          [0; 0]%N [0; 0]%Z [0; 0]%Z [1; 1]%Z).
Proof. reflexivity. Qed.



Lemma falsy_noise_type_keeps_n_neighbors_witness :
  exists s,
    outcome (compute_mi_locals counter_draw add_variate
               (vec [0; 0; 1; 1; 0]%Z) (vec [0; 0; 1; 0; 0]%Z) 1
               (PyStr EmptyString) 0) = Ok s /\
    nth 0 (mi_radius s) 1%N = 0%N /\
    mi_k s = [1; 1; 1; 1; 1]%Z.
Proof.
  destruct (@falsy_noise_type_keeps_n_neighbors nat counter_draw add_variate
              ln (vec [0; 0; 1; 1; 0]%Z) (vec [0; 0; 1; 0; 0]%Z)
              (vec [0; 0; 0; 0; 0]%Z)
              (col [0; 0; 1; 1; 0]%Z) (col [0; 0; 1; 0; 0]%Z)
              (col [0; 0; 0; 0; 0]%Z) 5 1 (PyStr EmptyString) 0)
    as ((s & H & _ & _ & Hk) & _);
    [reflexivity|reflexivity|by_running|by_running|by_running
    |vm_compute; lia|].
  exists s. split; [exact H|]. split; [|exact Hk].
  vm_compute in H. injection H as <-. reflexivity.
Defined.

(** * Further properties of the code *)

(** ** Point sets that differ by a distance-preserving map *)

Lemma zip_with_ext_in {A B C} (f g : A -> B -> C) (l : list A) (l' : list B) :
  (forall a b, In a l -> f a b = g a b) -> zip_with f l l' = zip_with g l l'.
Proof.
  revert l'. induction l as [|a l IH]; intros [|b l'] H; simpl;
    try reflexivity.
  rewrite (H a b) by now left. f_equal. apply IH.
  intros a' b' Ha. apply H. now right.
Qed.

Lemma zip_with_map_left {A A' B C} (f : A' -> B -> C) (h : A -> A')
      (l : list A) (l' : list B) :
  zip_with f (map h l) l' = zip_with (fun a b => f (h a) b) l l'.
Proof.
  revert l'. induction l as [|a l IH]; intros [|b l']; simpl;
    try reflexivity.
  now rewrite IH.
Qed.

Section Isometry.

Variable f : row -> row.
Variable pts : list row.
Hypothesis f_dist :
  forall p q, In p pts -> In q pts -> chebyshev (f p) (f q) = chebyshev p q.



Lemma isometry_counts (radius : list N) :
  counts_of (map f pts) radius = counts_of pts radius.
Proof.
  unfold counts_of. rewrite zip_with_map_left. apply zip_with_ext_in.
  intros p r Hp. do 2 f_equal. unfold count_within.
  rewrite filter_length_map. apply filter_length_ext.
  intros q Hq. now rewrite f_dist.
Qed.

Hypothesis f_inj : forall p q, In p pts -> In q pts -> f p = f q -> p = q.



End Isometry.

(** ** Rows of the joint spaces *)

Lemma chunks_one (l : list float64) :
  chunks 1 (length l) l = map (fun v => [v]) l.
Proof. induction l as [|a l IH]; simpl; [reflexivity|]. now rewrite IH. Qed.

(** The rows of an n-by-1 block are its values, one per row. *)
Lemma rows_col (n : nat) (x : ndarray) :
  block n 1 x -> rows x = map (fun v => [v]) (data x).
Proof.
  intros [Hs Hl]. unfold rows. rewrite Hs.
  replace n with (length (data x)) by lia. apply chunks_one.
Qed.

Lemma chebyshev_app (p1 p2 q1 q2 : row) :
  length p1 = length q1 ->
  chebyshev (p1 ++ p2) (q1 ++ q2)
  = N.max (chebyshev p1 q1) (chebyshev p2 q2).
Proof.
  revert q1. induction p1 as [|a p1 IH]; intros [|b q1] H; simpl in H;
    try discriminate.
  - simpl. unfold chebyshev at 2. simpl. lia.
  - simpl app. rewrite !chebyshev_cons, IH by lia. lia.
Qed.






(** ** Means over the reals *)



(** ** The estimators without jitter *)

Section WithoutJitter.

Variable rng : Type.
Variable draw : noise_kind -> rng -> float64 * rng.
Variable perturb : noise_kind -> list float64 -> float64 -> float64 -> float64.
Variable digamma : R -> R.

Lemma compute_mi_locals_run_falsy (x y x2 y2 : ndarray) (n k : nat)
      (noise_type : pyval) (g : rng) :
  sample_block x n x2 -> sample_block y n y2 -> k < n ->
  truthy noise_type = false ->
  exists xy,
    hstack [x2; y2] = Ok xy /\ block n 2 xy /\
    rows xy = zip_with (@app float64) (map (fun v => [v]) (data x2))
                       (map (fun v => [v]) (data y2)) /\
    length (data x2) = n /\ length (data y2) = n /\
    compute_mi_locals draw perturb x y k noise_type g
    = ([BuildIndex n 2; BuildIndex n 1; BuildIndex n 1],
       Ok (mk_mi_locals n x2 y2 xy (map (radius_of (rows xy) k) (rows xy))
             (k_of noise_type xy (map (radius_of (rows xy) k) (rows xy)) k n)
             (counts_of (rows x2) (map (radius_of (rows xy) k) (rows xy)))
             (counts_of (rows y2) (map (radius_of (rows xy) k) (rows xy))))).
Proof.
  intros Sx Sy Hk Ht.
  destruct (compute_mi_locals_run draw perturb g Sx Sy Hk
              (or_introl Ht : noise_ok noise_type))
    as (x' & y' & xy & En & Bx & By & Eh & Bxy & Rxy & Erun).
  cbv zeta in Erun. unfold noise2 in En. rewrite Ht in En.
  injection En as <- <-.
  exists xy. rewrite (rows_col Bx), (rows_col By) in Rxy.
  pose proof (block_size Bx) as Lx. pose proof (block_size By) as Ly.
  unfold size in Lx, Ly.
  repeat (split; [first [assumption | lia]|]).
  exact Erun.
Qed.





End WithoutJitter.

Section Symmetry.

Variable rng : Type.
Variable draw : noise_kind -> rng -> float64 * rng.
Variable perturb : noise_kind -> list float64 -> float64 -> float64 -> float64.
Variable digamma : R -> R.



End Symmetry.

(** ** Conditioning on a constant *)






Section ConstantCondition.

Variable rng : Type.
Variable draw : noise_kind -> rng -> float64 * rng.
Variable perturb : noise_kind -> list float64 -> float64 -> float64 -> float64.
Variable digamma : R -> R.


End ConstantCondition.

(** ** Marginal counts against joint counts *)

Lemma others_within_le (pts pts' : list row) (i : nat) (r : N) :
  length pts = length pts' ->
  (forall j, j < length pts ->
             (chebyshev (nth i pts' []) (nth j pts' [])
              <= chebyshev (nth i pts []) (nth j pts []))%N) ->
  others_within pts i r <= others_within pts' i r.
Proof.
  intros Hl H. unfold others_within, count_others. rewrite <- Hl.
  apply filter_length_le. intros j Hj Hp. apply in_seq in Hj.
  apply andb_true_iff in Hp as [Hn Hd]. rewrite Hn. simpl.
  apply N.leb_le in Hd. apply N.leb_le. specialize (H j ltac:(lia)). lia.
Qed.

Lemma others_within_bound (pts : list row) (i : nat) (r : N) :
  i < length pts -> others_within pts i r <= length pts - 1.
Proof.
  intros Hi. unfold others_within, count_others.
  pose proof (@filter_length_split (fun _ => true) i 0 (length pts)
                ltac:(lia)) as H.
  assert (E : forall l : list nat,
             length (filter (fun _ : nat => true) l) = length l)
    by (induction l; simpl; auto).
  rewrite E, length_seq in H.
  eapply Nat.le_trans;
    [apply (@filter_length_le _ _ (fun j => negb (j =? i) && true))|lia].
  intros j _ Hp. apply andb_true_iff in Hp as [Hn _].
  rewrite Hn. reflexivity.
Qed.

Lemma joint_row_nth (rx ry : list row) (i : nat) :
  i < length rx -> i < length ry ->
  nth i (zip_with (@app float64) rx ry) [] = nth i rx [] ++ nth i ry [].
Proof. intros Hx Hy. now apply zip_with_nth. Qed.

Lemma chebyshev_app_left (w : nat) (p1 p2 q1 q2 : row) :
  length p1 = w -> length q1 = w ->
  (chebyshev p1 q1 <= chebyshev (p1 ++ p2) (q1 ++ q2))%N.
Proof. intros H1 H2. rewrite chebyshev_app by lia. lia. Qed.

Lemma chebyshev_app_right (w : nat) (p1 p2 q1 q2 : row) :
  length p1 = w -> length q1 = w ->
  (chebyshev p2 q2 <= chebyshev (p1 ++ p2) (q1 ++ q2))%N.
Proof. intros H1 H2. rewrite chebyshev_app by lia. lia. Qed.

(** In a point set of rows of one width, the rows equal to a point are
    the points at distance 0 from it. *)
Lemma multiplicity_zero_distance (w : nat) (pts : list row) (i : nat) :
  Forall (fun r => length r = w) pts -> i < length pts ->
  multiplicity (nth i pts []) pts = others_within pts i 0 + 1.
Proof.
  intros Hw Hi. rewrite Forall_forall in Hw.
  assert (Hp : In (nth i pts []) pts) by now apply nth_In.
  pose proof (@count_within_others pts i (fun d => (d <=? 0)%N) Hi) as H0.
  cbv beta in H0. change ((0 <=? 0)%N) with true in H0. cbv iota in H0.
  unfold multiplicity, others_within. rewrite <- H0.
  apply filter_length_ext. intros q Hq.
  destruct (row_eqb q (nth i pts [])) eqn:E.
  - apply row_eqb_eq in E as ->. now rewrite chebyshev_refl.
  - destruct (N.leb_spec (chebyshev (nth i pts []) q) 0) as [H|H];
      [|reflexivity].
    assert (nth i pts [] = q).
    { apply chebyshev_eq0; [now rewrite (Hw _ Hp), (Hw _ Hq)|lia]. }
    subst q. now rewrite row_eqb_refl in E.
Qed.

Section MarginalCounts.

Variable rng : Type.
Variable draw : noise_kind -> rng -> float64 * rng.
Variable perturb : noise_kind -> list float64 -> float64 -> float64 -> float64.

(** X4.  In [compute_mi] every marginal count [nx_i], [ny_i] lies between
    the number of other samples within the radius in the joint space and
    [n - 1]; and where the tie-break applies ([noise_type] unset, radius
    0) the neighbour count [k_i] is that joint number, so that
    [k_i <= nx_i] and [k_i <= ny_i]. *)
Theorem marginal_counts_between_joint_and_all (x y x2 y2 : ndarray)
        (n k : nat) (noise_type : pyval) (g : rng) :
  sample_block x n x2 -> sample_block y n y2 -> k < n ->
  noise_ok noise_type ->
  exists s,
    outcome (compute_mi_locals draw perturb x y k noise_type g) = Ok s /\
    forall i, i < n ->
      let joint := Z.of_nat (others_within (rows (mi_xy s)) i
                                           (nth i (mi_radius s) 0%N)) in
      (joint <= nth i (mi_nx s) 0 <= Z.of_nat n - 1)%Z /\
      (joint <= nth i (mi_ny s) 0 <= Z.of_nat n - 1)%Z /\
      (noise_type = PyNone -> nth i (mi_radius s) 0%N = 0%N ->
       nth i (mi_k s) 0%Z = joint).
Proof.
  intros Sx Sy Hk Hok.
  destruct (compute_mi_locals_run draw perturb g Sx Sy Hk Hok)
    as (x' & y' & xy & _ & Bx & By & _ & Bxy & Rxy & Erun).
  cbv zeta in Erun. eexists. split; [rewrite Erun; reflexivity|].
  cbn [mi_xy mi_radius mi_nx mi_ny mi_k].
  pose proof (block_rows_length Bx) as Lx.
  pose proof (block_rows_length By) as Ly.
  pose proof (block_rows_length Bxy) as Lxy.
  pose proof (block_rows_width Bx) as Wx.
  pose proof (block_rows_width By) as Wy.
  rewrite Forall_forall in Wx, Wy.
  set (radius := map (radius_of (rows xy) k) (rows xy)).
  assert (Lr : length radius = n) by (unfold radius; now rewrite length_map).
  intros i Hi.
  rewrite !counts_of_others by lia. rewrite Lx, Ly.
  rewrite !nth_map_seq by exact Hi.
  assert (Hx : others_within (rows xy) i (nth i radius 0%N)
               <= others_within (rows x') i (nth i radius 0%N)).
  { apply others_within_le; [lia|]. intros j Hj. rewrite Rxy.
    rewrite !joint_row_nth by lia.
    apply (@chebyshev_app_left 1); apply Wx, nth_In; lia. }
  assert (Hy : others_within (rows xy) i (nth i radius 0%N)
               <= others_within (rows y') i (nth i radius 0%N)).
  { apply others_within_le; [lia|]. intros j Hj. rewrite Rxy.
    rewrite !joint_row_nth by lia.
    apply (@chebyshev_app_right 1); apply Wx, nth_In; lia. }
  pose proof (@others_within_bound (rows x') i (nth i radius 0%N)
                ltac:(lia)) as Ux.
  pose proof (@others_within_bound (rows y') i (nth i radius 0%N)
                ltac:(lia)) as Uy.
  split; [lia|]. split; [lia|].
  intros -> Hr. unfold k_of. cbn [is_none].
  rewrite <- Lxy at 1. rewrite <- Lxy in Hi.
  unfold radius in Hr |- *.
  rewrite (@tie_break_nth xy (radius_of (rows xy) k) (Z.of_nat k) i Hi).
  rewrite (nth_map_lt (radius_of (rows xy) k) (rows xy) [] 0%N Hi) in Hr |- *.
  rewrite Hr. cbn [N.eqb].
  rewrite (@multiplicity_zero_distance 2 (rows xy) i
             (block_rows_width Bxy) Hi).
  lia.
Qed.

End MarginalCounts.

(** ** The jitter *)

Section Jitter.

Variable rng : Type.
Variable draw : noise_kind -> rng -> float64 * rng.
Variable perturb : noise_kind -> list float64 -> float64 -> float64 -> float64.

Lemma draws_advance (kind : noise_kind) (n : nat) (g : rng) :
  snd (draws draw kind n g) = advance draw kind n g.
Proof.
  revert g. induction n as [|n IH]; intros g; simpl; [reflexivity|].
  destruct (draw kind g) as [u g1] eqn:E. specialize (IH g1).
  destruct (draws draw kind n g1) as [us g2]. simpl in *. exact IH.
Qed.

Lemma jitter_shape (kind : noise_kind) (x : ndarray) (g : rng) :
  shape (fst (jitter draw perturb kind x g)) = shape x /\
  size (fst (jitter draw perturb kind x g)) = size x /\
  snd (jitter draw perturb kind x g) = advance draw kind (size x) g.
Proof.
  unfold jitter. pose proof (draws_length draw kind (size x) g) as Hu.
  pose proof (draws_advance kind (size x) g) as Ha.
  destruct (draws draw kind (size x) g) as [us g']. simpl in *.
  split; [reflexivity|]. split; [|exact Ha].
  unfold size. simpl.
  rewrite length_map, !length_combine, length_seq, Hu. unfold size. lia.
Qed.


(** X6.  With a recognised noise type [compute_mi] jitters x with the
    first [n] variates of the generator and y with the next [n], and,
    the noise type not being [None], skips the tie-break: every [k_i] is
    [n_neighbors]. *)
Theorem jittered_blocks_and_neighbor_counts (x y x2 y2 : ndarray)
        (n k : nat) (kind : noise_kind) (noise_type : pyval) (g : rng) :
  sample_block x n x2 -> sample_block y n y2 -> k < n ->
  (kind = Uniform /\ noise_type = PyStr "uniform") \/
  (kind = Normal /\ noise_type = PyStr "normal") ->
  exists s,
    outcome (compute_mi_locals draw perturb x y k noise_type g) = Ok s /\
    mi_x s = fst (jitter draw perturb kind x2 g) /\
    mi_y s = fst (jitter draw perturb kind y2 (advance draw kind n g)) /\
    shape (mi_x s) = [n; 1] /\ shape (mi_y s) = [n; 1] /\
    mi_k s = repeat (Z.of_nat k) n.
Proof.
  intros Sx Sy Hk Hkind.
  assert (Hok : noise_ok noise_type).
  { destruct Hkind as [[_ ->]|[_ ->]]; [right; left|right; right];
      reflexivity. }
  destruct (sample_block_block Sx) as [Bx0 _].
  destruct (compute_mi_locals_run draw perturb g Sx Sy Hk Hok)
    as (x' & y' & xy & En & Bx & By & _ & _ & _ & Erun).
  cbv zeta in Erun.
  assert (E : x' = fst (jitter draw perturb kind x2 g) /\
              y' = fst (jitter draw perturb kind y2 (advance draw kind n g))).
  { destruct (jitter_shape kind x2 g) as (_ & _ & Hg).
    rewrite (block_size Bx0), Nat.mul_1_r in Hg. rewrite <- Hg.
    destruct Hkind as [[-> ->]|[-> ->]]; unfold noise2 in En;
      cbn in En; injection En as <- <-; split; reflexivity. }
  destruct E as [-> ->].
  eexists. split; [rewrite Erun; reflexivity|].
  cbn [mi_x mi_y mi_k].
  split; [reflexivity|]. split; [reflexivity|].
  split; [apply Bx|]. split; [apply By|].
  unfold k_of. destruct Hkind as [[_ ->]|[_ ->]]; reflexivity.
Qed.

End Jitter.

(** ** Failures before any index *)

Lemma hstack3_mismatch (n m l : nat) (x y z : ndarray) :
  block n 1 x -> block m 1 y -> block l 1 z -> n <> m \/ n <> l ->
  hstack [x; y; z] = Err DimensionMismatch.
Proof.
  intros Hx Hy Hz H. unfold hstack. simpl.
  rewrite (block_nrows Hx), (block_nrows Hy), (block_nrows Hz).
  destruct (Nat.eqb_spec m n), (Nat.eqb_spec l n);
    rewrite ?andb_false_r; simpl; rewrite ?andb_false_r;
    try reflexivity.
  lia.
Qed.

Section EarlyFailures.

Variable rng : Type.
Variable draw : noise_kind -> rng -> float64 * rng.
Variable perturb : noise_kind -> list float64 -> float64 -> float64 -> float64.
Variable digamma : R -> R.

Lemma noise_ok_dec (noise_type : pyval) :
  noise_ok noise_type \/ ~ noise_ok noise_type.
Proof.
  unfold noise_ok. destruct (truthy noise_type);
    destruct (eq_str noise_type "uniform");
    destruct (eq_str noise_type "normal"); intuition congruence.
Qed.

(** X7.  When the three accepted blocks of [compute_cmi] do not all have
    the same number of samples, the call fails before any spatial index
    is built: with the mismatch of [np.hstack((x, y, z))] when the jitter
    step lets the blocks through, with the invalid-noise error of the
    jitter step otherwise. *)
Theorem compute_cmi_sample_count_mismatch (x y z x2 y2 z2 : ndarray)
        (n m l k : nat) (noise_type : pyval) (g : rng) :
  sample_block x n x2 -> sample_block y m y2 -> sample_block z l z2 ->
  n <> m \/ n <> l ->
  trace (compute_cmi draw perturb digamma x y z k noise_type g) = [] /\
  (noise_ok noise_type ->
   outcome (compute_cmi draw perturb digamma x y z k noise_type g)
   = Err DimensionMismatch) /\
  (~ noise_ok noise_type ->
   outcome (compute_cmi draw perturb digamma x y z k noise_type g)
   = Err InvalidNoiseKind).
Proof.
  intros Sx Sy Sz Hne.
  destruct (sample_block_block Sx) as [Bx _].
  destruct (sample_block_block Sy) as [By _].
  destruct (sample_block_block Sz) as [Bz _].
  destruct Sx as (_ & Lx & Ex). destruct Sy as (_ & _ & Ey).
  destruct Sz as (_ & _ & Ez).
  assert (H1 : noise_ok noise_type ->
               compute_cmi_locals draw perturb x y z k noise_type g
               = ([], Err DimensionMismatch)).
  { intros Hok. unfold compute_cmi_locals. rewrite Lx, Ex, Ey, Ez.
    rewrite !bind_lift_ok. fold (noise3 draw perturb noise_type x2 y2 z2 g).
    destruct (noise3_ok draw perturb g Hok Bx By Bz)
      as (x' & y' & z' & En & Bx' & By' & Bz' & _).
    rewrite En, bind_lift_ok.
    now rewrite (hstack3_mismatch Bx' By' Bz' Hne). }
  assert (H2 : ~ noise_ok noise_type ->
               compute_cmi_locals draw perturb x y z k noise_type g
               = ([], Err InvalidNoiseKind)).
  { intros Hok. unfold compute_cmi_locals. rewrite Lx, Ex, Ey, Ez.
    rewrite !bind_lift_ok. fold (noise3 draw perturb noise_type x2 y2 z2 g).
    now rewrite (noise3_bad draw perturb _ _ _ g Hok). }
  unfold compute_cmi. rewrite trace_fmap, outcome_fmap.
  split; [destruct (noise_ok_dec noise_type) as [D|D];
          [rewrite (H1 D)|rewrite (H2 D)]; reflexivity|].
  split; intros D; [rewrite (H1 D)|rewrite (H2 D)]; reflexivity.
Qed.

(** X8.  The ranks are checked before anything else, x first: a 0-d x
    stops both estimators at [len(x)]; an x of rank 3 or more, or, behind
    a rank-1 x, a y (and in [compute_cmi] a z) of rank 0 or of rank 3 or
    more, stops them in [ensure_2d].  No index is built, whatever the
    noise type and the sample counts. *)
Theorem shape_errors_come_first (x y z : ndarray) (k : nat)
        (noise_type : pyval) (g : rng) :
  (ndim x = 0 ->
   compute_mi draw perturb digamma x y k noise_type g = ([], Err Unsized) /\
   compute_cmi draw perturb digamma x y z k noise_type g
   = ([], Err Unsized)) /\
  (3 <= ndim x ->
   compute_mi draw perturb digamma x y k noise_type g
   = ([], Err InvalidShape) /\
   compute_cmi draw perturb digamma x y z k noise_type g
   = ([], Err InvalidShape)) /\
  (ndim x = 1 -> ndim y = 0 \/ 3 <= ndim y ->
   compute_mi draw perturb digamma x y k noise_type g
   = ([], Err InvalidShape) /\
   compute_cmi draw perturb digamma x y z k noise_type g
   = ([], Err InvalidShape)) /\
  (ndim x = 1 -> ndim y = 1 -> ndim z = 0 \/ 3 <= ndim z ->
   compute_cmi draw perturb digamma x y z k noise_type g
   = ([], Err InvalidShape)).
Proof.
  unfold compute_mi, compute_cmi, compute_mi_locals, compute_cmi_locals,
    len, ensure_2d, ndim.
  split; [|split; [|split]].
  - intros H. destruct (shape x); [|discriminate]. split; reflexivity.
  - intros H. destruct (shape x) as [|n sx]; [simpl in H; lia|].
    destruct (Nat.eqb_spec (length (n :: sx)) 1) as [E|E]; [lia|].
    split; reflexivity.
  - intros Hx Hy. destruct (shape x) as [|n sx]; [discriminate|].
    rewrite Hx.
    destruct (Nat.eqb_spec (length (shape y)) 1) as [E|E]; [lia|].
    split; reflexivity.
  - intros Hx Hy Hz. destruct (shape x) as [|n sx]; [discriminate|].
    rewrite Hx, Hy.
    destruct (Nat.eqb_spec (length (shape z)) 1) as [E|E]; [lia|].
    reflexivity.
Qed.

End EarlyFailures.

(** ** Monotonicity of the two queries *)

Lemma nextafter0_mono (d d' : N) :
  (d <= d')%N -> (nextafter0 d <= nextafter0 d')%N.
Proof. unfold nextafter0. lia. Qed.

Lemma kth_dist_mono (pts : list row) (k k' : nat) (p : row) :
  k <= k' < length pts -> (kth_dist pts k p <= kth_dist pts k' p)%N.
Proof.
  intros H. unfold kth_dist. apply sort_dists_sorted.
  now rewrite sort_dists_length, length_map.
Qed.

Lemma kth_dist_zero (pts : list row) (p : row) :
  In p pts -> kth_dist pts 0 p = 0%N.
Proof.
  intros Hp. unfold kth_dist.
  assert (Hin : In 0%N (sort_dists (map (chebyshev p) pts))).
  { apply sort_dists_in. rewrite <- (chebyshev_refl p). now apply in_map. }
  apply (In_nth _ _ 0%N) in Hin as (j & Hj & Ej).
  pose proof (sort_dists_sorted (map (chebyshev p) pts)) as H.
  unfold sorted in H. specialize (H 0 j ltac:(lia)). lia.
Qed.

(** X9.  On a point set of [n] points [get_radius_kneighbors] returns one
    radius per point, 0 for every point when [n_neighbors = 0], and never
    a smaller radius for a larger [n_neighbors < n]. *)
Theorem radius_grows_with_n_neighbors (n w k k' : nat) (x : ndarray) :
  block n w x -> 1 <= w -> k <= k' < n ->
  exists radius radius',
    get_radius_kneighbors x k = ([BuildIndex n w], Ok radius) /\
    get_radius_kneighbors x k' = ([BuildIndex n w], Ok radius') /\
    length radius = n /\ length radius' = n /\
    (forall i, i < n -> (nth i radius 0 <= nth i radius' 0)%N) /\
    (k = 0 -> radius = repeat 0%N n).
Proof.
  intros Bx Hw Hk.
  pose proof (block_rows_length Bx) as Ln.
  assert (Hne : n * w <> 0) by nia.
  eexists _, _.
  split; [apply (get_radius_kneighbors_run Bx Hne); lia|].
  split; [apply (get_radius_kneighbors_run Bx Hne); lia|].
  fold (radius_of (rows x) k). fold (radius_of (rows x) k').
  rewrite !length_map. split; [exact Ln|]. split; [exact Ln|]. split.
  - intros i Hi. rewrite <- Ln in Hi, Hk.
    rewrite !(nth_map_lt _ (rows x) [] 0%N Hi).
    apply nextafter0_mono, kth_dist_mono. exact Hk.
  - intros ->. rewrite <- Ln. rewrite <- map_const.
    apply map_ext_in. intros p Hp. unfold radius_of.
    now rewrite kth_dist_zero.
Qed.

Lemma others_within_mono (pts : list row) (i : nat) (r r' : N) :
  (r <= r')%N -> others_within pts i r <= others_within pts i r'.
Proof.
  intros H. unfold others_within, count_others.
  apply filter_length_le. intros j _ Hp.
  apply andb_true_iff in Hp as [Hn Hd]. rewrite Hn. simpl.
  apply N.leb_le in Hd. apply N.leb_le. lia.
Qed.

(** X10.  On a point set of [n] points [num_points_within_radius] returns
    one count per point, between 0 and [n - 1], and never a smaller count
    for a larger radius. *)
Theorem counts_grow_with_radius (n w : nat) (x : ndarray)
        (radius radius' : list N) :
  block n w x -> 1 <= w -> 1 <= n ->
  length radius = n -> length radius' = n ->
  (forall i, i < n -> (nth i radius 0 <= nth i radius' 0)%N) ->
  exists counts counts',
    num_points_within_radius x radius = ([BuildIndex n w], Ok counts) /\
    num_points_within_radius x radius' = ([BuildIndex n w], Ok counts') /\
    length counts = n /\ length counts' = n /\
    forall i, i < n ->
      (0 <= nth i counts 0 <= nth i counts' 0)%Z /\
      (nth i counts' 0 <= Z.of_nat n - 1)%Z.
Proof.
  intros Bx Hw Hn Lr Lr' Hle.
  pose proof (block_rows_length Bx) as Ln.
  assert (Hne : n * w <> 0) by nia.
  eexists _, _.
  split; [apply (@num_points_within_radius_run n w x radius Bx Hne Lr)|].
  split; [apply (@num_points_within_radius_run n w x radius' Bx Hne Lr')|].
  fold (counts_of (rows x) radius). fold (counts_of (rows x) radius').
  rewrite !counts_of_others by lia.
  rewrite !length_map, !length_seq, Ln.
  split; [reflexivity|]. split; [reflexivity|].
  intros i Hi. rewrite !nth_map_seq by exact Hi.
  pose proof (@others_within_mono (rows x) i _ _ (Hle i Hi)).
  pose proof (@others_within_bound (rows x) i (nth i radius' 0%N)
                ltac:(lia)).
  lia.
Qed.

(** ** A block against itself *)

Lemma zip_with_diag {A C} (f : A -> A -> C) (l : list A) :
  zip_with f l l = map (fun a => f a a) l.
Proof. induction l as [|a l IH]; simpl; [reflexivity|]. now rewrite IH. Qed.

Lemma double_dist (p q : row) :
  length p = length q -> chebyshev (p ++ p) (q ++ q) = chebyshev p q.
Proof. intros H. rewrite chebyshev_app by exact H. lia. Qed.

Section SelfInformation.

Variable rng : Type.
Variable draw : noise_kind -> rng -> float64 * rng.
Variable perturb : noise_kind -> list float64 -> float64 -> float64 -> float64.

(** X11.  In [compute_mi(x, x)] with [noise_type] unset the two marginal
    counts are equal and are the counts of the joint space; a sample with
    a radius other than 0 has [nx_i + 1 <= n_neighbors = k_i], a sample
    with radius 0 has [nx_i = k_i], so that [nx_i <= k_i] throughout. *)
Theorem self_information_counts (x x2 : ndarray) (n k : nat) (g : rng) :
  sample_block x n x2 -> k < n ->
  exists s,
    outcome (compute_mi_locals draw perturb x x k PyNone g) = Ok s /\
    mi_ny s = mi_nx s /\
    forall i, i < n ->
      nth i (mi_nx s) 0%Z
      = Z.of_nat (others_within (rows (mi_xy s)) i
                                (nth i (mi_radius s) 0%N)) /\
      (nth i (mi_nx s) 0 <= nth i (mi_k s) 0)%Z /\
      (nth i (mi_radius s) 0%N <> 0%N ->
       nth i (mi_k s) 0%Z = Z.of_nat k /\
       (nth i (mi_nx s) 0 + 1 <= Z.of_nat k)%Z) /\
      (nth i (mi_radius s) 0%N = 0%N ->
       nth i (mi_nx s) 0%Z = nth i (mi_k s) 0%Z).
Proof.
  intros Sx Hk.
  destruct (sample_block_block Sx) as [Bx _].
  destruct (@compute_mi_locals_run_falsy rng draw perturb x x x2 x2 n k
              PyNone g Sx Sx Hk eq_refl)
    as (xx & _ & Bxx & Rxx & Lx & _ & Erun).
  set (f := fun r : row => r ++ r).
  assert (Rxx' : rows xx = map f (rows x2)).
  { rewrite Rxx, (rows_col Bx). rewrite zip_with_diag. reflexivity. }
  pose proof (block_rows_length Bx) as Ln.
  pose proof (block_rows_length Bxx) as Lnn.
  pose proof (block_rows_width Bx) as Wx. rewrite Forall_forall in Wx.
  assert (Iso : forall p q, In p (rows x2) -> In q (rows x2) ->
                            chebyshev (f p) (f q) = chebyshev p q).
  { intros p q Hp Hq. apply double_dist. now rewrite (Wx p Hp), (Wx q Hq). }
  set (radius := map (radius_of (rows xx) k) (rows xx)) in *.
  assert (Lr : length radius = n) by (unfold radius; now rewrite length_map).
  assert (Ec : counts_of (rows x2) radius = counts_of (rows xx) radius).
  { rewrite Rxx'. symmetry. now apply isometry_counts. }
  eexists. split; [rewrite Erun; reflexivity|].
  cbn [mi_nx mi_ny mi_xy mi_radius mi_k].
  split; [reflexivity|]. intros i Hi.
  rewrite Ec, counts_of_others by lia. rewrite Lnn.
  rewrite nth_map_seq by exact Hi.
  unfold k_of. cbn [is_none]. rewrite <- Lnn in Hi. rewrite <- Lnn at 1 2 3.
  unfold radius.
  rewrite (@tie_break_nth xx (radius_of (rows xx) k) (Z.of_nat k) i Hi).
  rewrite (nth_map_lt (radius_of (rows xx) k) (rows xx) [] 0%N Hi).
  split; [reflexivity|].
  destruct (@kth_dist_rank (rows xx) i k Hi ltac:(lia)) as [H1 _].
  cbv zeta in H1. unfold radius_of in *.
  set (d := kth_dist (rows xx) k (nth i (rows xx) [])) in *.
  destruct (N.eqb_spec (nextafter0 d) 0%N) as [E|E].
  - rewrite E.
    rewrite (@multiplicity_zero_distance 2 (rows xx) i
               (block_rows_width Bxx) Hi).
    split; [lia|]. split; [congruence|]. intros _. lia.
  - assert (Hd : (0 < d)%N) by (unfold nextafter0 in E; lia).
    rewrite (others_within_nextafter0 _ _ Hd).
    destruct (N.ltb_spec 0%N d); [|lia].
    split; [lia|]. split; [intros _; split; [reflexivity|lia]|].
    congruence.
Qed.

End SelfInformation.

(** ** Concrete runs of the further properties *)




Lemma marginal_counts_between_joint_and_all_witness :
  exists s,
    outcome (compute_mi_locals counter_draw add_variate
               (vec [0; 0; 1; 1; 0]%Z) (vec [0; 0; 1; 0; 0]%Z) 1 PyNone 0)
    = Ok s /\
    (nth 3 (mi_nx s) 0 <= 4)%Z.
Proof.
  destruct (@marginal_counts_between_joint_and_all
              nat counter_draw add_variate
              (vec [0; 0; 1; 1; 0]%Z) (vec [0; 0; 1; 0; 0]%Z)
              (col [0; 0; 1; 1; 0]%Z) (col [0; 0; 1; 0; 0]%Z)
              5 1 PyNone 0)
    as (s & H & Hs);
    [by_running|by_running|vm_compute; lia|left; reflexivity|].
  exists s. split; [exact H|].
  destruct (Hs 3 ltac:(vm_compute; lia)) as ([_ Hu] & _). exact Hu.
Defined.


Lemma jittered_blocks_and_neighbor_counts_witness :
  exists s,
    outcome (compute_mi_locals counter_draw add_variate
               (vec [0; 0; 0]%Z) (vec [1; 1; 1]%Z) 1 (PyStr "normal") 0)
    = Ok s /\
    mi_k s = [1; 1; 1]%Z.
Proof.
  destruct (@jittered_blocks_and_neighbor_counts
              nat counter_draw add_variate
              (vec [0; 0; 0]%Z) (vec [1; 1; 1]%Z)
              (col [0; 0; 0]%Z) (col [1; 1; 1]%Z)
              3 1 Normal (PyStr "normal") 0)
    as (s & H & _ & _ & _ & _ & Hk);
    [by_running|by_running|vm_compute; lia|right; split; reflexivity|].
  exists s. split; [exact H|exact Hk].
Defined.

Lemma compute_cmi_sample_count_mismatch_witness :
  trace (compute_cmi counter_draw add_variate ln
           (vec [0; 1]%Z) (vec [0; 1]%Z) (vec [0]%Z) 1 PyNone 0) = [] /\
  outcome (compute_cmi counter_draw add_variate ln
             (vec [0; 1]%Z) (vec [0; 1]%Z) (vec [0]%Z) 1 PyNone 0)
  = Err DimensionMismatch.
Proof.
  destruct (@compute_cmi_sample_count_mismatch
              nat counter_draw add_variate ln
              (vec [0; 1]%Z) (vec [0; 1]%Z) (vec [0]%Z)
              (col [0; 1]%Z) (col [0; 1]%Z) (col [0]%Z)
              2 2 1 1 PyNone 0)
    as (Ht & Ho & _);
    [by_running|by_running|by_running|right; vm_compute; lia|].
  split; [exact Ht|]. apply Ho. left. reflexivity.
Defined.

Lemma shape_errors_come_first_witness :
  compute_mi counter_draw add_variate ln
    (mk_ndarray [] [of_int 5]) (vec [0; 1]%Z) 1 (PyStr "foo") 0
  = ([], Err Unsized) /\
  compute_mi counter_draw add_variate ln
    (vec [0; 1]%Z) (mk_ndarray [] [of_int 5]) 1 (PyStr "foo") 0
  = ([], Err InvalidShape).
Proof.
  split.
  - destruct (@shape_errors_come_first nat counter_draw add_variate ln
                (mk_ndarray [] [of_int 5]) (vec [0; 1]%Z) (vec [0; 1]%Z)
                1 (PyStr "foo") 0) as (H & _).
    apply H. reflexivity.
  - destruct (@shape_errors_come_first nat counter_draw add_variate ln
                (vec [0; 1]%Z) (mk_ndarray [] [of_int 5]) (vec [0; 1]%Z)
                1 (PyStr "foo") 0) as (_ & _ & H & _).
    apply H; [reflexivity|left; reflexivity].
Defined.

Lemma radius_grows_with_n_neighbors_witness :
  exists radius radius',
    get_radius_kneighbors (col [0; 1; 3; 3]%Z) 1
    = ([BuildIndex 4 1], Ok radius) /\
    get_radius_kneighbors (col [0; 1; 3; 3]%Z) 2
    = ([BuildIndex 4 1], Ok radius') /\
    (nth 0 radius 0 <= nth 0 radius' 0)%N.
Proof.
  destruct (@radius_grows_with_n_neighbors 4 1 1 2 (col [0; 1; 3; 3]%Z))
    as (r & r' & H1 & H2 & _ & _ & Hle & _);
    [split; reflexivity|lia|lia|].
  exists r, r'. split; [exact H1|]. split; [exact H2|].
  apply Hle. lia.
Defined.

Lemma counts_grow_with_radius_witness :
  exists counts counts',
    num_points_within_radius (col [0; 1; 3; 3]%Z) [0; 0; 0; 0]%N
    = ([BuildIndex 4 1], Ok counts) /\
    num_points_within_radius (col [0; 1; 3; 3]%Z) [0; 5; 0; 7]%N
    = ([BuildIndex 4 1], Ok counts') /\
    (nth 3 counts 0 <= nth 3 counts' 0)%Z.
Proof.
  destruct (@counts_grow_with_radius 4 1 (col [0; 1; 3; 3]%Z)
              [0; 0; 0; 0]%N [0; 5; 0; 7]%N)
    as (c & c' & H1 & H2 & _ & _ & H);
    [split; reflexivity|lia|lia|reflexivity|reflexivity| |].
  - intros [|[|[|[|i]]]] Hi; simpl; lia.
  - exists c, c'. split; [exact H1|]. split; [exact H2|].
    destruct (H 3 ltac:(lia)) as [[_ Hle] _]. exact Hle.
Defined.

Lemma self_information_counts_witness :
  exists s,
    outcome (compute_mi_locals counter_draw add_variate
               (vec [0; 0; 1; 3]%Z) (vec [0; 0; 1; 3]%Z) 1 PyNone 0) = Ok s /\
    mi_ny s = mi_nx s.
Proof.
  destruct (@self_information_counts nat counter_draw add_variate
              (vec [0; 0; 1; 3]%Z) (col [0; 0; 1; 3]%Z) 4 1 0)
    as (s & H & E & _); [by_running|vm_compute; lia|].
  exists s. split; [exact H|exact E].
Defined.
